(** * Photo-Sphere-Viewer: the kinematic controllers of [src/utils/Dynamic.js]

    A shallow embedding of the classes [Dynamic] (one animated scalar) and
    [MultiDynamic] (a named group of them), and the properties of the
    specification that concern them.

    Numbers.  A JavaScript number is an IEEE-754 double.  The model keeps
    every special value the code can meet (NaN, the two infinities and the
    negative zero) with the IEEE rules for them, and takes the finite values
    as exact rationals: rounding, overflow and underflow are not modelled.

    Callbacks.  A function value is an opaque identifier; calling it is
    recorded as an event in a trace, in program order.

    Objects.  A [Dynamic] is a record of its fields and its methods are
    functions from record to record.  The [Dynamic] objects a
    [MultiDynamic] refers to live in a store and are known by reference;
    a method call on something that is not a [Dynamic] throws. *)

From Stdlib Require Import QArith Qabs Qminmax Qround Lqa Lia ZArith Bool List.
From stdpp Require Import base option list gmap strings.

Local Open Scope Q_scope.

(* ===================================================================== *)
(** ** JavaScript numbers *)
(* ===================================================================== *)

Module Num.

Inductive num : Type :=
| NaN
| PInf
| NInf
| NegZero
| Fin (q : Q).

(** The rational a finite number stands for ([0] for the others). *)
Definition qval (a : num) : Q :=
  match a with
  | Fin q => q
  | _ => 0
  end.

Definition is_finite (a : num) : bool :=
  match a with
  | Fin _ | NegZero => true
  | _ => false
  end.

Definition is_nan (a : num) : bool :=
  match a with
  | NaN => true
  | _ => false
  end.

(** The sign bit. *)
Definition signbit (a : num) : bool :=
  match a with
  | NInf | NegZero => true
  | Fin q => match q ?= 0 with Lt => true | _ => false end
  | _ => false
  end.

Definition Qzero (q : Q) : bool :=
  match q ?= 0 with Eq => true | _ => false end.

Definition zero_of (neg : bool) : num := if neg then NegZero else Fin 0.
Definition inf_of (neg : bool) : num := if neg then NInf else PInf.

(** A finite result [q] whose sign, when it is a zero, is [neg]. *)
Definition fin_signed (neg : bool) (q : Q) : num :=
  if Qzero q then zero_of neg else Fin q.

(** The comparison behind [<], [>], [<=], [===]: [None] when a NaN is
    involved, and the two zeros compare equal. *)
Definition cmp (a b : num) : option comparison :=
  match a, b with
  | NaN, _ | _, NaN => None
  | NInf, NInf => Some Eq
  | NInf, _ => Some Lt
  | _, NInf => Some Gt
  | PInf, PInf => Some Eq
  | PInf, _ => Some Gt
  | _, PInf => Some Lt
  | _, _ => Some (qval a ?= qval b)
  end.

Definition lt (a b : num) : bool :=
  match cmp a b with Some Lt => true | _ => false end.
Definition gt (a b : num) : bool := lt b a.
Definition le (a b : num) : bool :=
  match cmp a b with Some Lt | Some Eq => true | _ => false end.
(** [a === b] *)
Definition strict_eq (a b : num) : bool :=
  match cmp a b with Some Eq => true | _ => false end.
(** [a !== b] *)
Definition strict_ne (a b : num) : bool := negb (strict_eq a b).

(** Truthiness of a number in a condition: false for both zeros and NaN. *)
Definition truthy (a : num) : bool :=
  match a with
  | NaN | NegZero => false
  | Fin q => negb (Qzero q)
  | _ => true
  end.

(** Unary minus. *)
Definition neg (a : num) : num :=
  match a with
  | NaN => NaN
  | PInf => NInf
  | NInf => PInf
  | NegZero => Fin 0
  | Fin q => if Qzero q then NegZero else Fin (- q)
  end.

Definition add (a b : num) : num :=
  match a, b with
  | NaN, _ | _, NaN => NaN
  | PInf, NInf | NInf, PInf => NaN
  | PInf, _ | _, PInf => PInf
  | NInf, _ | _, NInf => NInf
  | NegZero, NegZero => NegZero
  | NegZero, Fin q | Fin q, NegZero => Fin q
  | Fin p, Fin q => Fin (p + q)
  end.

(** IEEE subtraction is addition of the opposite. *)
Definition sub (a b : num) : num := add a (neg b).

Definition mul (a b : num) : num :=
  let s := xorb (signbit a) (signbit b) in
  match a, b with
  | NaN, _ | _, NaN => NaN
  | (PInf | NInf), (PInf | NInf) => inf_of s
  | (PInf | NInf), f | f, (PInf | NInf) =>
      if Qzero (qval f) then NaN else inf_of s
  | _, _ => fin_signed s (qval a * qval b)
  end.

Definition div (a b : num) : num :=
  let s := xorb (signbit a) (signbit b) in
  match a, b with
  | NaN, _ | _, NaN => NaN
  | (PInf | NInf), (PInf | NInf) => NaN
  | (PInf | NInf), _ => inf_of s
  | _, (PInf | NInf) => zero_of s
  | _, _ =>
      if Qzero (qval b)
      then (if Qzero (qval a) then NaN else inf_of s)
      else fin_signed s (qval a / qval b)
  end.

(** [Math.abs] *)
Definition abs (a : num) : num :=
  match a with
  | NaN => NaN
  | PInf | NInf => PInf
  | NegZero => Fin 0
  | Fin q => Fin (Qabs q)
  end.

(** [Math.min]: NaN when an argument is NaN; the negative zero is below
    the positive one. *)
Definition min (a b : num) : num :=
  match cmp a b with
  | None => NaN
  | Some Lt => a
  | Some Gt => b
  | Some Eq => if signbit a then a else b
  end.

(** [Math.max] *)
Definition max (a b : num) : num :=
  match cmp a b with
  | None => NaN
  | Some Lt => b
  | Some Gt => a
  | Some Eq => if signbit a then b else a
  end.

(** Integer literals of the source. *)
Definition lit (z : Z) : num := Fin (inject_Z z).

End Num.

(* ===================================================================== *)
(** ** Callbacks and their trace *)
(* ===================================================================== *)

(** A function value, known only by its identity. *)
Definition callback : Type := nat.

(** What a callback was called with: a number ([Dynamic]) or an object
    mapping names to numbers ([MultiDynamic]). *)
Inductive arg : Type :=
| ANum (v : Num.num)
| AObj (values : gmap string Num.num).

Definition event : Type := (callback * arg)%type.

(* ===================================================================== *)
(** ** The helper [bound] *)
(* ===================================================================== *)

(** Modelled from the spec: the helper [bound] imported from the utilities
    index, whose file is not part of the sources at hand.  The spec says
    that it clamps its first argument to [[min,max]]; it is taken as the
    usual [Math.max(min, Math.min(max, x))]. *)
Definition bound (x min max : Num.num) : Num.num :=
  Num.max min (Num.min max x).

(* ===================================================================== *)
(** ** class Dynamic *)
(* ===================================================================== *)

Module Dynamic.

Import Num.

(** [static STOP = 0; static INFINITE = 1; static POSITION = 2] *)
Inductive mode_t : Type := STOP | INFINITE | POSITION.

Definition mode_code (m : mode_t) : Z :=
  match m with STOP => 0 | INFINITE => 1 | POSITION => 2 end%Z.

Record t : Type := mk {
  fn : option callback;
  mode : mode_t;
  speed : num;
  speedMult : num;
  currentSpeed : num;
  target : num;
  current : num;
  min : num;
  max : num
}.

Definition mode_eqb (a b : mode_t) : bool :=
  Z.eqb (mode_code a) (mode_code b).

(** [constructor(fn, min = -Infinity, max = Infinity)] *)
Definition new (fn : option callback) (min max : num) : t :=
  {| fn := fn;
     mode := STOP;
     speed := lit 0;
     speedMult := lit 1;
     currentSpeed := lit 0;
     target := lit 0;
     current := lit 0;
     min := min;
     max := max |}.

Definition new_default (fn : option callback) : t := new fn NInf PInf.

(** Assignment to the public field [speed] (the setter of [MultiDynamic]
    does it on every axis). *)
Definition set_speed (v : num) (d : t) : t :=
  mk (fn d) (mode d) v (speedMult d) (currentSpeed d)
     (target d) (current d) (min d) (max d).

(** [goto(position, speedMult = 1)] *)
Definition goto (position speedMult : num) (d : t) : t :=
  mk (fn d) POSITION (speed d) speedMult (currentSpeed d)
     (bound position (min d) (max d)) (current d) (min d) (max d).

(** [step(val, speedMult = 1)] *)
Definition step (val speedMult : num) (d : t) : t :=
  let d1 :=
    if mode_eqb (mode d) INFINITE
    then mk (fn d) (mode d) (speed d) (Dynamic.speedMult d) (currentSpeed d)
            (current d) (current d) (min d) (max d)
    else d in
  goto (add (target d1) val) speedMult d1.

(** [roll(invert = false, speedMult = 1)] *)
Definition roll (invert : bool) (speedMult : num) (d : t) : t :=
  mk (fn d) INFINITE (speed d) speedMult (currentSpeed d)
     (if invert then NInf else PInf) (current d) (min d) (max d).

(** [stop()] *)
Definition stop (d : t) : t :=
  mk (fn d) STOP (speed d) (speedMult d) (currentSpeed d)
     (target d) (current d) (min d) (max d).

(** [setCurrent(current)] *)
Definition setCurrent (v : num) (d : t) : t :=
  mk (fn d) STOP (speed d) (speedMult d) (currentSpeed d)
     v v (min d) (max d).

(** *** [update(elapsed)], block by block *)

(** "in position mode switch to stop mode when in the decceleration window" *)
Definition dstStop (d : t) : num :=
  div (mul (currentSpeed d) (currentSpeed d))
      (mul (mul (speed d) (speedMult d)) (lit 4)).

Definition update_mode (d : t) : mode_t :=
  if mode_eqb (mode d) POSITION
  then (if lt (abs (sub (target d) (current d))) (dstStop d)
        then STOP else mode d)
  else mode d.

(** "compute speed"; [m] is the mode after the first block. *)
Definition targetSpeed (m : mode_t) (d : t) : num :=
  if mode_eqb m STOP then lit 0 else mul (speed d) (speedMult d).

(** [elapsed / 1000 * this.speed * this.speedMult * 2] *)
Definition ramp (elapsed : num) (d : t) : num :=
  mul (mul (mul (div elapsed (lit 1000)) (speed d)) (speedMult d)) (lit 2).

Definition update_speed (elapsed : num) (m : mode_t) (d : t) : num :=
  let ts := targetSpeed m d in
  if lt (currentSpeed d) ts
  then Num.min ts (add (currentSpeed d) (ramp elapsed d))
  else if gt (currentSpeed d) ts
  then Num.max ts (sub (currentSpeed d) (ramp elapsed d))
  else currentSpeed d.

(** "compute new position"; [cs] is the speed after the second block and
    [None] is the [null] the source starts from. *)
Definition update_next (elapsed cs : num) (d : t) : option num :=
  if gt (current d) (target d) && truthy cs
  then Some (Num.max (target d)
                     (sub (current d) (div (mul cs elapsed) (lit 1000))))
  else if lt (current d) (target d) && truthy cs
  then Some (Num.min (target d)
                     (add (current d) (div (mul cs elapsed) (lit 1000))))
  else None.

(** The callbacks run by one call. *)
Definition notify (f : option callback) (v : num) : list event :=
  match f with
  | Some c => [(c, ANum v)]
  | None => []
  end.

(** [update(elapsed)]: the new state, the calls made, the returned boolean. *)
Definition update (elapsed : num) (d : t) : t * list event * bool :=
  let m := update_mode d in
  let cs := update_speed elapsed m d in
  let d1 := mk (fn d) m (speed d) (speedMult d) cs
               (target d) (current d) (min d) (max d) in
  match update_next elapsed cs d with
  | Some next0 =>
      let next := bound next0 (min d) (max d) in
      if strict_ne next (current d)
      then (mk (fn d) m (speed d) (speedMult d) cs
               (target d) next (min d) (max d),
            notify (fn d) next, true)
      else (d1, [], false)
  | None => (d1, [], false)
  end.

Definition update_state (elapsed : num) (d : t) : t :=
  fst (fst (update elapsed d)).
Definition update_calls (elapsed : num) (d : t) : list event :=
  snd (fst (update elapsed d)).
Definition update_changed (elapsed : num) (d : t) : bool :=
  snd (update elapsed d).

(** [n] calls of [update] with the same [elapsed]. *)
Fixpoint run (n : nat) (elapsed : num) (d : t) : t :=
  match n with
  | O => d
  | S k => run k elapsed (update_state elapsed d)
  end.

(** *** What a client can do, and its effect *)

(** The six methods, and the assignment to [speed]. *)
Inductive call : Type :=
| SetSpeed (v : num)
| Goto (position speedMult : num)
| Step (val speedMult : num)
| Roll (invert : bool) (speedMult : num)
| Stop
| SetCurrent (v : num)
| Update (elapsed : num).

(** One call: the new state and the callbacks it ran.  Only [update] has
    a call of [this.fn] in its body. *)
Definition exec (c : call) (d : t) : t * list event :=
  match c with
  | SetSpeed v => (set_speed v d, [])
  | Goto p sm => (goto p sm d, [])
  | Step v sm => (step v sm d, [])
  | Roll i sm => (roll i sm d, [])
  | Stop => (stop d, [])
  | SetCurrent v => (setCurrent v d, [])
  | Update e => fst (update e d)
  end.

(** A sequence of calls, first to last. *)
Fixpoint execs (cs : list call) (d : t) : t * list event :=
  match cs with
  | [] => (d, [])
  | c :: rest =>
      let '(d1, ev1) := exec c d in
      let '(d2, ev2) := execs rest d1 in
      (d2, ev1 ++ ev2)
  end.

(** [lo <= x && x <= hi], as the source language evaluates it. *)
Definition within (x lo hi : num) : bool := le lo x && le x hi.

End Dynamic.

(* ===================================================================== *)
(** ** class MultiDynamic *)
(* ===================================================================== *)

(** The values the variable [hasUpdates] of [MultiDynamic.update] takes: it
    starts as the boolean [false], and [|=] turns it into a 32-bit
    integer. *)
Inductive jsval : Type :=
| JBool (b : bool)
| JInt (z : Z).

Definition to_int32 (v : jsval) : Z :=
  match v with
  | JBool b => if b then 1%Z else 0%Z
  | JInt z => z
  end.

(** [a | b] *)
Definition bit_or (a b : jsval) : jsval := JInt (Z.lor (to_int32 a) (to_int32 b)).

(** Truthiness of such a value. *)
Definition to_boolean (v : jsval) : bool :=
  match v with
  | JBool b => b
  | JInt z => negb (Z.eqb z 0)
  end.

Inductive error : Type := TypeError.

(** How a call ends: it returns, or an exception reaches the caller. *)
Inductive completion (A : Type) : Type :=
| Return (a : A)
| Throw (e : error).
Arguments Return {A} a.
Arguments Throw {A} e.

(** A JavaScript object used as a dictionary: its own properties, in the
    order [Object.keys] lists them. *)
Fixpoint get {A : Type} (name : string) (o : list (string * A)) : option A :=
  match o with
  | [] => None
  | (k, v) :: rest => if String.eqb k name then Some v else get name rest
  end.

Definition keys {A : Type} (o : list (string * A)) : list string := map fst o.

(** Modelled from the spec: the helper [each] imported from the utilities
    index, whose file is not part of the sources at hand.  It calls
    [f value name] for each pair of the object, in order; an exception
    thrown by [f] ends the loop and reaches the caller, with the state as
    the calls so far left it. *)
Fixpoint each {A S : Type} (o : list (string * A))
    (f : A -> string -> S -> S * completion unit) (s : S)
    : S * completion unit :=
  match o with
  | [] => (s, Return tt)
  | (name, v) :: rest =>
      match f v name s with
      | (s', Return _) => each rest f s'
      | (s', Throw e) => (s', Throw e)
      end
  end.

Module MultiDynamic.

Import Num.

(** The [Dynamic] objects live in a store and are known by reference, so
    that two names of a [MultiDynamic] may denote the same object. *)
Abbreviation heap := (gmap nat Dynamic.t).

Record t : Type := mk {
  fn : option callback;
  dynamics : list (string * nat)
}.

(** [constructor(dynamics, fn)] *)
Definition new (dynamics : list (string * nat)) (fn : option callback) : t :=
  {| fn := fn; dynamics := dynamics |}.

(** A method call [r.m(...)] on the value of a property: a [TypeError]
    when the reference does not hold a [Dynamic]. *)
Definition invoke (m : Dynamic.t -> Dynamic.t) (r : nat) (h : heap)
    : heap * completion unit :=
  match h !! r with
  | Some d => (<[r := m d]> h, Return tt)
  | None => (h, Throw TypeError)
  end.

(** [this.dynamics[name].m(...)]: a property that does not exist reads as
    [undefined], and the call on it throws a [TypeError]. *)
Definition invoke_named (md : t) (name : string)
    (m : Dynamic.t -> Dynamic.t) (h : heap) : heap * completion unit :=
  match get name (dynamics md) with
  | Some r => invoke m r h
  | None => (h, Throw TypeError)
  end.

(** [set speed(speed)] *)
Definition set_speed (speed : num) (md : t) (h : heap) : heap * completion unit :=
  each (dynamics md) (fun d _ => invoke (Dynamic.set_speed speed) d) h.

(** [goto(positions, speedMult = 1)] *)
Definition goto (positions : list (string * num)) (speedMult : num)
    (md : t) (h : heap) : heap * completion unit :=
  each positions
       (fun position name =>
          invoke_named md name (Dynamic.goto position speedMult)) h.

(** [step(steps, speedMult = 1)] *)
Definition step (steps : list (string * num)) (speedMult : num)
    (md : t) (h : heap) : heap * completion unit :=
  each steps
       (fun step name =>
          invoke_named md name (Dynamic.step step speedMult)) h.

(** [roll(rolls, speedMult = 1)] *)
Definition roll (rolls : list (string * bool)) (speedMult : num)
    (md : t) (h : heap) : heap * completion unit :=
  each rolls
       (fun roll name =>
          invoke_named md name (Dynamic.roll roll speedMult)) h.

(** [stop()] *)
Definition stop (md : t) (h : heap) : heap * completion unit :=
  each (dynamics md) (fun d _ => invoke Dynamic.stop d) h.

(** [setCurrent(currents)] *)
Definition setCurrent (currents : list (string * num))
    (md : t) (h : heap) : heap * completion unit :=
  each currents
       (fun current name =>
          invoke_named md name (Dynamic.setCurrent current)) h.

(** The variables the loop of [update] works on: the store, the trace of
    callbacks, [hasUpdates] and [values]. *)
Record loop_state : Type := mk_loop {
  store : heap;
  trace : list event;
  hasUpdates : jsval;
  values : gmap string num
}.

(** The body of the loop of [update]:
    [hasUpdates |= dynamic.update(elapsed); values[name] = dynamic.current] *)
Definition update_body (elapsed : num) (r : nat) (name : string)
    (s : loop_state) : loop_state * completion unit :=
  match store s !! r with
  | Some d =>
      let '(d', calls, changed) := Dynamic.update elapsed d in
      (mk_loop (<[r := d']> (store s))
               (trace s ++ calls)
               (bit_or (hasUpdates s) (JBool changed))
               (<[name := Dynamic.current d']> (values s)),
       Return tt)
  | None => (s, Throw TypeError)
  end.

Definition update_loop (elapsed : num) (md : t) (h : heap)
    : loop_state * completion unit :=
  each (dynamics md) (update_body elapsed) (mk_loop h [] (JBool false) ∅).

(** [update(elapsed)]: the store and the trace it leaves, and how it ends
    (the returned value is [hasUpdates]). *)
Definition update (elapsed : num) (md : t) (h : heap)
    : heap * list event * completion jsval :=
  match update_loop elapsed md h with
  | (s, Return _) =>
      match fn md with
      | Some f =>
          if to_boolean (hasUpdates s)
          then (store s, trace s ++ [(f, AObj (values s))], Return (hasUpdates s))
          else (store s, trace s, Return (hasUpdates s))
      | None => (store s, trace s, Return (hasUpdates s))
      end
  | (s, Throw e) => (store s, trace s, Throw e)
  end.

End MultiDynamic.

(* ===================================================================== *)
(** ** Finite numbers and their rational value *)
(* ===================================================================== *)

(** [a] is finite (possibly the negative zero) and stands for [q]. *)
Definition has_value (a : Num.num) (q : Q) : Prop :=
  Num.is_finite a = true /\ Num.qval a == q.

(* ===================================================================== *)
(** ** The blocks of [Dynamic.update] on rational values *)
(* ===================================================================== *)

(** What the blocks of [update] compute when every number involved is
    finite: [dt] is [elapsed], [s] is [speed] (with [speedMult] at 1), [tq]
    the target, [c] the position and [v] the speed. *)
Module Rat.

(** [elapsed / 1000 * speed * speedMult * 2] *)
Definition ramp (dt s : Q) : Q := dt / 1000 * s * 1 * 2.

(** [currentSpeed * currentSpeed / (speed * speedMult * 4)] *)
Definition brake (s v : Q) : Q := v * v / (s * 1 * 4).

(** The test of the first block. *)
Definition in_window (s tq c v : Q) : bool :=
  match Qabs (tq - c) ?= brake s v with Lt => true | _ => false end.

(** The second block; [stopped] tells whether the mode is [STOP]. *)
Definition speed (stopped : bool) (dt s v : Q) : Q :=
  let ts := if stopped then 0 else s * 1 in
  match v ?= ts with
  | Lt => Qmin ts (v + ramp dt s)
  | Gt => Qmax ts (v - ramp dt s)
  | Eq => v
  end.

(** The third block, before the clamp to the bounds. *)
Definition next (dt tq c v : Q) : option Q :=
  match tq ?= c with
  | Lt => if Num.Qzero v then None else Some (Qmax tq (c - v * dt / 1000))
  | Gt => if Num.Qzero v then None else Some (Qmin tq (c + v * dt / 1000))
  | Eq => None
  end.

End Rat.

(* ===================================================================== *)
(** ** Concrete controllers used by the examples below *)
(* ===================================================================== *)

Module Ex.

Import Num Dynamic.

(** [new Dynamic(null, 5, 10)] *)
Definition fresh_5_10 : t := new None (lit 5) (lit 10).

(** [d = new Dynamic(f7, 0, 10); d.speed = 1; d.goto(5); d.update(250)] *)
Definition moving_0_10 : t :=
  update_state (lit 250)
    (goto (lit 5) (lit 1) (set_speed (lit 1) (new (Some 7%nat) (lit 0) (lit 10)))).

(** [d = new Dynamic(null); d.roll()] *)
Definition rolling : t := roll false (lit 1) (new_default None).


(** [d = new Dynamic(null); d.speed = 1; d.goto(1.3125)] *)
Definition seeking_1_21_16 : t :=
  goto (Fin (21 # 16)) (lit 1) (set_speed (lit 1) (new_default None)).

(** [d = new Dynamic(null); d.speed = 8; d.goto(9)] *)
Definition seeking_8_9 : t :=
  goto (lit 9) (lit 1) (set_speed (lit 8) (new_default None)).

(** [d = new Dynamic(null); d.speed = 8 * k; d.goto(9 * k)] *)
Definition seeking_scaled (k : Q) : t :=
  goto (Fin (9 * k)) (lit 1) (set_speed (Fin (8 * k)) (new_default None)).



End Ex.

(* ===================================================================== *)
(** ** The statements of the spec that the code is compared with *)
(* ===================================================================== *)

Module Spec.

Import Num Dynamic.

(** What the spec says of [setCurrent(v)]: the value is clamped, the speed
    reset, no callback called. *)
Definition setCurrent_spec (v : num) (d : t) : Prop :=
  let d' := fst (exec (SetCurrent v) d) in
  strict_eq (current d') (bound v (min d) (max d)) = true /\
  strict_eq (target d') (bound v (min d) (max d)) = true /\
  mode d' = STOP /\
  strict_eq (currentSpeed d') (lit 0) = true /\
  snd (exec (SetCurrent v) d) = [].

(** The case the spec calls DegenerateSpeed: seeking, with
    [speed * speedMult] equal to 0 and [current] not at [target]. *)
Definition degenerate_speed (d : t) : Prop :=
  mode d = POSITION /\
  strict_eq (mul (speed d) (speedMult d)) (lit 0) = true /\
  strict_ne (target d) (current d) = true.





(** The mode after an [update], on rational values. *)
Definition next_mode (s tq : Q) (m : mode_t) (c v : Q) : mode_t :=
  match m with
  | STOP => STOP
  | INFINITE => INFINITE
  | POSITION => if Rat.in_window s tq c v then STOP else POSITION
  end.

(** The premises of the convergence property: a positive finite speed,
    [speedMult] at 1, a finite target within the bounds set by [goto] (so
    the mode is [POSITION]), a finite position, a finite speed that is not
    negative, and a positive finite [elapsed]. *)
Definition ready (e : num) (d : t) : Prop :=
  mode d = POSITION /\
  strict_eq (speedMult d) (lit 1) = true /\
  is_finite (speed d) = true /\ lt (lit 0) (speed d) = true /\
  is_finite (current d) = true /\
  is_finite (target d) = true /\
  within (target d) (min d) (max d) = true /\
  is_finite (currentSpeed d) = true /\ le (lit 0) (currentSpeed d) = true /\
  is_finite e = true /\ lt (lit 0) e = true.

(** [current] of [dk] has not passed the target of [d] by more than [eps],
    on the side [d] started from. *)
Definition no_overshoot (eps : num) (d dk : t) : Prop :=
  (le (current d) (target d) = true ->
   le (current dk) (add (target d) eps) = true) /\
  (le (target d) (current d) = true ->
   le (sub (target d) eps) (current dk) = true).

(** The convergence property, for the tolerance [eps]: some number of calls
    of [update(e)] brings [current] within [eps] of the target, in mode
    [STOP] and with a zero speed, without overshoot on the way. *)
Definition converges (eps e : num) (d : t) : Prop :=
  exists n,
    le (abs (sub (current (run n e d)) (target d))) eps = true /\
    mode (run n e d) = STOP /\
    strict_eq (currentSpeed (run n e d)) (lit 0) = true /\
    forall k, (k <= n)%nat -> no_overshoot eps d (run k e d).

(** At rest: stopped, with a zero speed. *)
Definition at_rest (d : t) : Prop :=
  mode d = STOP /\ strict_eq (currentSpeed d) (lit 0) = true.


(** A controller [d] on its way to the target set in [d0]: it differs from
    [d0] in [mode], [current] and [currentSpeed] only, it seeks or has
    stopped, and it is at the finite position [c] with the finite speed
    [v >= 0]. *)
Definition on_course (d0 d : t) (c v : Q) : Prop :=
  fn d = fn d0 /\ speed d = speed d0 /\ speedMult d = speedMult d0 /\
  target d = target d0 /\ min d = min d0 /\ max d = max d0 /\
  (mode d = POSITION \/ mode d = STOP) /\
  has_value (current d) c /\ has_value (currentSpeed d) v /\ 0 <= v.


(** The premises of the properties of rolling: the controller rolls
    upwards with a positive finite speed and [speedMult] at 1, from a
    finite position within the bounds and with a finite speed that is not
    negative, and [elapsed] is positive and finite. *)
Definition rolls (e : num) (d : t) : Prop :=
  mode d = INFINITE /\ target d = PInf /\
  strict_eq (speedMult d) (lit 1) = true /\
  is_finite (speed d) = true /\ lt (lit 0) (speed d) = true /\
  is_finite (current d) = true /\
  within (current d) (min d) (max d) = true /\
  is_finite (currentSpeed d) = true /\ le (lit 0) (currentSpeed d) = true /\
  is_finite e = true /\ lt (lit 0) e = true.


(** A call that is not [setCurrent]. *)
Definition not_setCurrent (c : call) : Prop :=
  match c with
  | SetCurrent _ => False
  | _ => True
  end.

End Spec.

(* ===================================================================== *)
(** ** Vocabulary for the statements about [MultiDynamic] *)
(* ===================================================================== *)

Module Multi.

Import Num MultiDynamic.

Definition refs {A : Type} (o : list (string * A)) : list A := map snd o.

(** The [MultiDynamic] owns its axes: the names are distinct (it is an
    object), no two names denote the same [Dynamic], and every reference
    holds a [Dynamic]. *)
Definition owns (md : t) (h : heap) : Prop :=
  NoDup (keys (dynamics md)) /\
  NoDup (refs (dynamics md)) /\
  forall r, r ∈ refs (dynamics md) -> is_Some (h !! r).

(** The four operations that take a sparse mapping. *)
Inductive fanout : Type :=
| FGoto (positions : list (string * num)) (speedMult : num)
| FStep (steps : list (string * num)) (speedMult : num)
| FRoll (rolls : list (string * bool)) (speedMult : num)
| FSetCurrent (currents : list (string * num)).

Definition fanout_run (f : fanout) (md : t) (h : heap) : heap * completion unit :=
  match f with
  | FGoto o sm => goto o sm md h
  | FStep o sm => step o sm md h
  | FRoll o sm => roll o sm md h
  | FSetCurrent o => setCurrent o md h
  end.

(** The names the mapping of the call has. *)
Definition fanout_names (f : fanout) : list string :=
  match f with
  | FGoto o _ | FStep o _ | FSetCurrent o => keys o
  | FRoll o _ => keys o
  end.

(** What the call asks of the axis [name], if it names it. *)
Definition fanout_axis (f : fanout) (name : string)
    : option (Dynamic.t -> Dynamic.t) :=
  match f with
  | FGoto o sm => (fun v => Dynamic.goto v sm) <$> get name o
  | FStep o sm => (fun v => Dynamic.step v sm) <$> get name o
  | FRoll o sm => (fun v => Dynamic.roll v sm) <$> get name o
  | FSetCurrent o => (fun v => Dynamic.setCurrent v) <$> get name o
  end.





(** Two axes: ["x"] seeks 5 at speed 1 between 0 and 10, ["y"] is new and
    at rest.  Each has its own callback; the group has callback 9. *)
Definition two_axes : t := new [("x"%string, 0%nat); ("y"%string, 1%nat)] (Some 9%nat).

Definition axis_x : Dynamic.t :=
  Dynamic.goto (lit 5) (lit 1)
    (Dynamic.set_speed (lit 1) (Dynamic.new (Some 7%nat) (lit 0) (lit 10))).

Definition axis_y : Dynamic.t := Dynamic.new (Some 8%nat) NInf PInf.

Definition two_axes_store : heap := <[0%nat := axis_x]> (<[1%nat := axis_y]> ∅).

(** [new MultiDynamic({a: x, b: x}, f9)]: both names denote the one
    [Dynamic] [x]. *)
Definition shared_axis : t :=
  new [("a"%string, 0%nat); ("b"%string, 0%nat)] (Some 9%nat).

(** How many names of the object denote the reference [r]. *)
Definition names_of (r : nat) (o : list (string * nat)) : nat :=
  length (List.filter (fun p => Nat.eqb p.2 r) o).

End Multi.

(* ===================================================================== *)
(** ** Facts about the numbers *)
(* ===================================================================== *)

Section NumFacts.

Import Num.

Lemma Qcompare_refl (q : Q) : (q ?= q) = Eq.
Proof. apply Qeq_alt. reflexivity. Qed.

Lemma cmp_refl (a : num) : is_nan a = false -> cmp a a = Some Eq.
Proof.
  destruct a; simpl; intros H; try discriminate; try reflexivity.
  now rewrite Qcompare_refl.
Qed.

Lemma strict_eq_refl (a : num) : is_nan a = false -> strict_eq a a = true.
Proof. intros H. unfold strict_eq. now rewrite cmp_refl. Qed.

Lemma lt_not_nan_l (a b : num) : lt a b = true -> is_nan a = false.
Proof. destruct a; simpl; auto. Qed.

Lemma lt_not_nan_r (a b : num) : lt a b = true -> is_nan b = false.
Proof. destruct a, b; simpl; auto. Qed.

Lemma lt_irrefl (a : num) : lt a a = false.
Proof.
  destruct a; try reflexivity. unfold lt. simpl. now rewrite Qcompare_refl.
Qed.

End NumFacts.

Section DynamicBasics.

Import Num Dynamic.

Lemma update_next_not_nan (e cs : num) (d : t) (x : num) :
  update_next e cs d = Some x -> is_nan (current d) = false.
Proof.
  unfold update_next, gt.
  destruct (lt (target d) (current d)) eqn:H1; simpl.
  - intros _. eapply lt_not_nan_r; eauto.
  - destruct (lt (current d) (target d)) eqn:H2; simpl; [|discriminate].
    intros _. eapply lt_not_nan_l; eauto.
Qed.

(** C9: [stop()] sets the mode to [STOP] and leaves every other field as it
    was. *)
Theorem stop_only_sets_mode (d : t) :
  mode (stop d) = STOP /\
  current (stop d) = current d /\
  target (stop d) = target d /\
  currentSpeed (stop d) = currentSpeed d /\
  speedMult (stop d) = speedMult d /\
  min (stop d) = min d /\
  max (stop d) = max d /\
  speed (stop d) = speed d /\
  fn (stop d) = fn d /\
  snd (exec Stop d) = [].
Proof. repeat split. Qed.

End DynamicBasics.

Section DynamicCalls.

Import Num Dynamic.



(** C3, as stated, fails: on a controller bounded by 0 and 10 that moves at
    speed 1/2, [setCurrent(20)] leaves [current] at 20, not 10, and the
    speed at 1/2. *)
Lemma setCurrent_spec_fails :
  let d' := setCurrent (lit 20) Ex.moving_0_10 in
  ~ Spec.setCurrent_spec (lit 20) Ex.moving_0_10 /\
  strict_eq (current d') (lit 20) = true /\
  strict_eq (bound (lit 20) (min Ex.moving_0_10) (max Ex.moving_0_10)) (lit 10) = true /\
  strict_eq (currentSpeed d') (Fin (1 # 2)) = true.
Proof.
  repeat split; try reflexivity.
  intros (H & _). vm_compute in H. discriminate.
Qed.

(** C3, amended: [setCurrent(v)] stores [v] as it is in [current] and
    [target], sets the mode to [STOP], leaves every other field
    ([currentSpeed] too) as it was, and calls no callback; with [current]
    at [target], the speed that is left moves nothing: the next [update]
    returns [false], calls nothing and leaves [current] at [v]. *)
Theorem setCurrent_effect (v : num) (d : t) :
  exec (SetCurrent v) d =
  (mk (fn d) STOP (speed d) (speedMult d) (currentSpeed d) v v (min d) (max d),
   []) /\
  forall e,
    update_changed e (setCurrent v d) = false /\
    update_calls e (setCurrent v d) = [] /\
    current (update_state e (setCurrent v d)) = v /\
    target (update_state e (setCurrent v d)) = v /\
    mode (update_state e (setCurrent v d)) = STOP.
Proof.
  split; [reflexivity|]. intros e.
  unfold update_changed, update_calls, update_state, update.
  assert (Hn : forall cs, update_next e cs (setCurrent v d) = None).
  { intros cs. unfold update_next, gt. simpl. now rewrite lt_irrefl. }
  rewrite Hn. repeat split.
Qed.

(** C6: in mode [INFINITE], [step(val, speedMult)] leaves the state that
    [goto(current + val, speedMult)] leaves. *)
Theorem step_while_rolling (val sm : num) (d : t) :
  mode d = INFINITE ->
  step val sm d = goto (add (current d) val) sm d.
Proof. intros H. unfold step. rewrite H. reflexivity. Qed.

Lemma step_while_rolling_witness :
  mode Ex.rolling = INFINITE /\
  step (lit 3) (lit 2) Ex.rolling = goto (add (current Ex.rolling) (lit 3)) (lit 2) Ex.rolling.
Proof.
  split; [reflexivity|].
  apply (step_while_rolling (lit 3) (lit 2) Ex.rolling). reflexivity.
Defined.

(** C7: [update] returns [true] exactly when it changed [current], and it
    calls the callback, with the new [current], exactly when it returns
    [true] and there is a callback. *)
Theorem update_changed_iff (e : num) (d : t) :
  (update_changed e d = true <-> current (update_state e d) <> current d) /\
  (update_changed e d = true ->
   strict_ne (current (update_state e d)) (current d) = true) /\
  update_calls e d =
    (if update_changed e d
     then match fn d with
          | Some f => [(f, ANum (current (update_state e d)))]
          | None => []
          end
     else []).
Proof.
  unfold update_changed, update_state, update_calls, update.
  destruct (update_next e _ d) as [x|] eqn:Hn; simpl.
  - pose proof (update_next_not_nan _ _ _ _ Hn) as Hc.
    destruct (strict_ne (bound x (min d) (max d)) (current d)) eqn:Hs; simpl.
    + split; [split|split].
      * intros _ Heq. rewrite Heq in Hs. unfold strict_ne in Hs.
        rewrite strict_eq_refl in Hs by assumption. discriminate.
      * reflexivity.
      * intros _. exact Hs.
      * destruct (fn d); reflexivity.
    + split; [split|split]; try discriminate; try reflexivity.
      intros H. now elim H.
  - split; [split|split]; try discriminate; try reflexivity.
    intros H. now elim H.
Qed.

End DynamicCalls.

Section DegenerateSpeed.

Import Num Dynamic.

(** A number that is [=== 0]: one of the two zeros. *)
Lemma strict_eq_zero (a : num) :
  strict_eq a (lit 0) = true ->
  a = NegZero \/ exists q, a = Fin q /\ q == 0.
Proof.
  destruct a; simpl; try discriminate; auto.
  unfold strict_eq; simpl. destruct (q ?= inject_Z 0) eqn:H; try discriminate.
  intros _. right. exists q. split; auto. now apply Qeq_alt.
Qed.

Lemma Qzero_true (q : Q) : q == 0 -> Qzero q = true.
Proof. intros H. unfold Qzero. apply Qeq_alt in H. now rewrite H. Qed.





Lemma zero_not_truthy (a : num) : strict_eq a (lit 0) = true -> truthy a = false.
Proof.
  intros [->|(q & -> & Hq)]%strict_eq_zero; simpl; auto.
  now rewrite Qzero_true.
Qed.

Lemma zeros_not_lt (a b : num) :
  strict_eq a (lit 0) = true -> strict_eq b (lit 0) = true -> lt a b = false.
Proof.
  intros [->|(p & -> & Hp)]%strict_eq_zero [->|(q & -> & Hq)]%strict_eq_zero;
    unfold lt; simpl; try reflexivity.
  - assert (H : (0 ?= q) = Eq) by (apply Qeq_alt; rewrite Hq; reflexivity).
    now rewrite H.
  - assert (H : (p ?= 0) = Eq) by (apply Qeq_alt; rewrite Hp; reflexivity).
    now rewrite H.
  - assert (H : (p ?= q) = Eq) by (apply Qeq_alt; rewrite Hp, Hq; reflexivity).
    now rewrite H.
Qed.

Lemma lt_nan_r (a : num) : lt a NaN = false.
Proof. now destruct a. Qed.




(** With a speed left from before, the same case does move: the controller
    of [Ex.moving_0_10], its [speed] set to 0, goes from 1/8 to 1/4 in the
    next [update(250)], in mode [STOP] and at an unchanged speed of 1/2. *)
Example degenerate_speed_still_moves :
  let d := set_speed (lit 0) Ex.moving_0_10 in
  let d' := update_state (lit 250) d in
  Spec.degenerate_speed d /\
  strict_eq (current d) (Fin (1 # 8)) = true /\
  strict_eq (current d') (Fin (1 # 4)) = true /\
  strict_eq (currentSpeed d') (Fin (1 # 2)) = true /\
  mode d' = STOP /\
  update_changed (lit 250) d = true.
Proof. vm_compute. repeat split. Qed.

End DegenerateSpeed.

(* ===================================================================== *)
(** ** Objects as lists of properties *)
(* ===================================================================== *)

Section Objects.

Context {A : Type}.
Implicit Types (o : list (string * A)) (name : string).

Lemma get_Some_refs name o (v : A) : get name o = Some v -> v ∈ Multi.refs o.
Proof.
  induction o as [|[k w] o IH]; simpl; [discriminate|].
  destruct (String.eqb k name) eqn:E.
  - intros [= ->]. apply list_elem_of_here.
  - intros H. apply list_elem_of_further. auto.
Qed.

(** In an object whose values are distinct, a value has one name. *)
Lemma get_inj o n1 n2 (v : A) :
  NoDup (Multi.refs o) -> get n1 o = Some v -> get n2 o = Some v -> n1 = n2.
Proof.
  induction o as [|[k w] o IH]; simpl; [discriminate|].
  intros [Hw Hnd]%NoDup_cons.
  destruct (String.eqb k n1) eqn:E1, (String.eqb k n2) eqn:E2.
  - apply String.eqb_eq in E1, E2. congruence.
  - intros [= ->] H2. apply get_Some_refs in H2. contradiction.
  - intros H1 [= ->]. apply get_Some_refs in H1. contradiction.
  - now apply IH.
Qed.

End Objects.

(* ===================================================================== *)
(** ** [MultiDynamic]: the calls that take a mapping *)
(* ===================================================================== *)

Section FanOut.

Import Num MultiDynamic.

Context {A : Type} (md : t) (m : A -> Dynamic.t -> Dynamic.t).

Let body : A -> string -> heap -> heap * completion unit :=
  fun v name => invoke_named md name (m v).

(** References that no name of the mapping denotes are not touched. *)
Lemma each_named_frame (o : list (string * A)) (h : heap) (r : nat) :
  (forall name, name ∈ keys o -> get name (dynamics md) <> Some r) ->
  (each o body h).1 !! r = h !! r.
Proof.
  revert h. induction o as [|[k v] o IH]; intros h Hr; simpl; [reflexivity|].
  assert (Hk : get k (dynamics md) <> Some r) by (apply Hr, list_elem_of_here).
  assert (Ho : forall name, name ∈ keys o -> get name (dynamics md) <> Some r)
    by (intros; apply Hr, list_elem_of_further; assumption).
  unfold body at 1, invoke_named, invoke.
  destruct (get k (dynamics md)) as [r0|] eqn:Eg; [|reflexivity].
  destruct (h !! r0) as [d0|] eqn:Eh; [|reflexivity].
  fold body. rewrite IH by assumption.
  apply lookup_insert_ne. congruence.
Qed.

(** A name that is not a property of [dynamics] ends the call by a
    [TypeError]. *)
Lemma each_named_throw (o : list (string * A)) (h : heap) :
  (exists name, name ∈ keys o /\ get name (dynamics md) = None) ->
  (each o body h).2 = Throw TypeError.
Proof.
  revert h. induction o as [|[k v] o IH]; intros h (name & Hin & Hg); simpl.
  - inversion Hin.
  - unfold body at 1, invoke_named, invoke.
    destruct (get k (dynamics md)) as [r0|] eqn:Eg; [|reflexivity].
    destruct (h !! r0) as [d0|] eqn:Eh; [|reflexivity].
    fold body. apply IH. exists name. split; [|assumption].
    apply elem_of_cons in Hin as [Hin|Hin]; [simpl in Hin; congruence|assumption].
Qed.

(** When every name is a property holding a [Dynamic], the call returns,
    and each named axis has had its operation applied. *)
Lemma each_named_ok (o : list (string * A)) (h : heap) :
  NoDup (keys o) ->
  NoDup (Multi.refs (dynamics md)) ->
  (forall r, r ∈ Multi.refs (dynamics md) -> is_Some (h !! r)) ->
  (forall name, name ∈ keys o -> is_Some (get name (dynamics md))) ->
  (each o body h).2 = Return tt /\
  forall name v r d,
    get name o = Some v -> get name (dynamics md) = Some r ->
    h !! r = Some d -> (each o body h).1 !! r = Some (m v d).
Proof.
  intros Hnd Hal. revert h Hnd.
  induction o as [|[k v] o IH]; intros h Hnd Hh Hk; simpl.
  - split; [reflexivity|]. discriminate.
  - change (NoDup (k :: keys o)) in Hnd.
    apply NoDup_cons in Hnd as [Hko Hnd].
    destruct (Hk k) as [r0 Eg]; [apply list_elem_of_here|].
    destruct (Hh r0) as [d0 Eh]; [eapply get_Some_refs; eassumption|].
    unfold body at 1 3, invoke_named, invoke. rewrite Eg, Eh. fold body.
    assert (Hh' : forall r, r ∈ Multi.refs (dynamics md) ->
                            is_Some (<[r0 := m v d0]> h !! r)).
    { intros r Hr. apply lookup_insert_is_Some'. right. auto. }
    assert (Hk' : forall name, name ∈ keys o -> is_Some (get name (dynamics md)))
      by (intros; apply Hk, list_elem_of_further; assumption).
    destruct (IH (<[r0 := m v d0]> h) Hnd Hh' Hk') as [Hret Heff].
    split; [exact Hret|].
    intros name w r d Hgo Hgd Hd. simpl in Hgo.
    destruct (String.eqb k name) eqn:E; rewrite ?E in Hgo.
    + apply String.eqb_eq in E. subst name.
      injection Hgo as <-. assert (r = r0) by congruence. subst r.
      assert (d = d0) by congruence. subst d.
      rewrite each_named_frame; [apply lookup_insert_eq|].
      intros name Hin Hg. assert (name = k) by (eapply get_inj; eassumption).
      subst name. contradiction.
    + apply (Heff name w r d); try assumption.
      rewrite lookup_insert_ne; [assumption|].
      intros ->. apply String.eqb_neq in E. apply E.
      eapply get_inj; eassumption.
Qed.

End FanOut.

Section FanOutTheorem.

Import Num MultiDynamic.

(** C8: [goto], [step], [roll] and [setCurrent] of a [MultiDynamic] that
    owns its axes touch only the axes their mapping names, apply the
    operation to each of these when all the names are axes, and end by an
    exception (a [TypeError]) reaching the caller as soon as the mapping has
    a name that is not an axis. *)
Theorem fanout_effect (f : Multi.fanout) (md : t) (h : heap) :
  Multi.owns md h ->
  NoDup (Multi.fanout_names f) ->
  let res := Multi.fanout_run f md h in
  (forall name r,
      get name (dynamics md) = Some r -> name ∉ Multi.fanout_names f ->
      res.1 !! r = h !! r) /\
  (forall r, r ∉ Multi.refs (dynamics md) -> res.1 !! r = h !! r) /\
  ((exists name, name ∈ Multi.fanout_names f /\ get name (dynamics md) = None) ->
   res.2 = Throw TypeError) /\
  ((forall name, name ∈ Multi.fanout_names f -> is_Some (get name (dynamics md))) ->
   res.2 = Return tt /\
   forall name r d op,
     get name (dynamics md) = Some r -> h !! r = Some d ->
     Multi.fanout_axis f name = Some op ->
     res.1 !! r = Some (op d)).
Proof.
  intros (Hk & Hr & Hh) Hnd.
  assert (Hframe : forall (A : Type) (m : A -> Dynamic.t -> Dynamic.t) o,
    (forall name r,
        get name (dynamics md) = Some r -> name ∉ keys o ->
        (each o (fun v name => invoke_named md name (m v)) h).1 !! r = h !! r) /\
    (forall r, r ∉ Multi.refs (dynamics md) ->
        (each o (fun v name => invoke_named md name (m v)) h).1 !! r = h !! r)).
  { intros A m o. split.
    - intros name r Hg Hn. apply each_named_frame.
      intros name' Hin Hg'. assert (name' = name) by (eapply get_inj; eassumption).
      subst. contradiction.
    - intros r Hn. apply each_named_frame.
      intros name' _ Hg'. apply get_Some_refs in Hg'. contradiction. }
  assert (Hok : forall (A : Type) (m : A -> Dynamic.t -> Dynamic.t) o,
    NoDup (keys o) ->
    (forall name, name ∈ keys o -> is_Some (get name (dynamics md))) ->
    (each o (fun v name => invoke_named md name (m v)) h).2 = Return tt /\
    forall name r d op,
      get name (dynamics md) = Some r -> h !! r = Some d ->
      m <$> get name o = Some op ->
      (each o (fun v name => invoke_named md name (m v)) h).1 !! r = Some (op d)).
  { intros A m o Hno Hall.
    destruct (each_named_ok md m o h Hno Hr Hh Hall) as [H1 H2].
    split; [exact H1|].
    intros name r d op Hg Hd Hop.
    destruct (get name o) as [v|] eqn:Ego; [|discriminate].
    injection Hop as <-. eapply H2; eassumption. }
  destruct f as [o sm|o sm|o sm|o]; simpl in *;
    (split; [apply Hframe|split; [apply Hframe|split]]);
    try (apply each_named_throw);
    intros Hall.
  - apply (Hok _ (fun v => Dynamic.goto v sm)); assumption.
  - apply (Hok _ (fun v => Dynamic.step v sm)); assumption.
  - apply (Hok _ (fun v => Dynamic.roll v sm)); assumption.
  - apply (Hok _ (fun v => Dynamic.setCurrent v)); assumption.
Qed.

End FanOutTheorem.

Section FanOutExamples.

Import Num MultiDynamic.

Lemma two_axes_owned : Multi.owns Multi.two_axes Multi.two_axes_store.
Proof.
  split; [|split].
  - apply (bool_decide_unpack _). reflexivity.
  - apply (bool_decide_unpack _). reflexivity.
  - intros r Hr. simpl in Hr.
    apply elem_of_cons in Hr as [->|Hr]; [now eexists|].
    apply elem_of_cons in Hr as [->|Hr]; [now eexists|].
    inversion Hr.
Qed.

Lemma fanout_effect_witness :
  let f := Multi.FGoto [("x"%string, lit 3)] (lit 1) in
  let res := Multi.fanout_run f Multi.two_axes Multi.two_axes_store in
  res.2 = Return tt /\
  res.1 !! 1%nat = Multi.two_axes_store !! 1%nat /\
  Dynamic.target <$> res.1 !! 0%nat = Some (lit 3).
Proof.
  intros f res.
  assert (Hn : NoDup (Multi.fanout_names f)) by (apply (bool_decide_unpack _); reflexivity).
  destruct (fanout_effect f Multi.two_axes Multi.two_axes_store two_axes_owned Hn)
    as (Hframe & _ & _ & Hok).
  destruct Hok as [Hret Heff].
  { intros name Hin. apply list_elem_of_singleton in Hin as ->. now eexists. }
  fold res in Hframe, Hret, Heff.
  split; [exact Hret|split].
  - apply (Hframe "y"%string); [reflexivity|].
    intros Hin. apply list_elem_of_singleton in Hin. discriminate.
  - rewrite (Heff "x"%string 0%nat Multi.axis_x
               (fun d => Dynamic.goto (lit 3) (lit 1) d));
      reflexivity.
Defined.

(** A name that is no axis: [goto({z: 1})] throws, and [goto({x: 3, z: 1})]
    throws after it has moved the target of ["x"]. *)
Example goto_unknown_axis :
  (goto [("z"%string, lit 1)] (lit 1) Multi.two_axes Multi.two_axes_store).2
    = Throw TypeError /\
  let res := goto [("x"%string, lit 3); ("z"%string, lit 1)] (lit 1)
                  Multi.two_axes Multi.two_axes_store in
  res.2 = Throw TypeError /\
  Dynamic.target <$> res.1 !! 0%nat = Some (lit 3).
Proof. repeat split. Qed.

End FanOutExamples.

(* ===================================================================== *)
(** ** [MultiDynamic.update] *)
(* ===================================================================== *)

Section MultiUpdate.

Import Num MultiDynamic.








End MultiUpdate.

Section MultiUpdateTheorem.

Import Num MultiDynamic.



(** Of two axes, only ["x"] moves in a step: [update] returns 1, ["x"]
    calls its callback, then the group calls its own once with the values
    of both axes.  In the next example nothing moves: [update] returns 0
    and nothing is called. *)
Example one_axis_moves :
  let res := update (lit 250) Multi.two_axes Multi.two_axes_store in
  res.2 = Return (JInt 1) /\
  exists x vals,
    res.1.2 = [(7%nat, ANum x); (9%nat, AObj vals)] /\
    strict_eq x (Fin (1 # 8)) = true /\
    vals !! "x"%string = Some x /\
    vals !! "y"%string = Some (lit 0).
Proof.
  vm_compute. split; [reflexivity|].
  eexists. eexists. split; [reflexivity|]. repeat split.
Qed.

Example no_axis_moves :
  let h := <[0%nat := Multi.axis_y]> Multi.two_axes_store in
  update (lit 250) Multi.two_axes h = (h, [], Return (JInt 0)).
Proof. vm_compute. reflexivity. Qed.

End MultiUpdateTheorem.

(* ===================================================================== *)
(** ** Arithmetic on finite numbers is the arithmetic of the rationals *)
(* ===================================================================== *)

Section FiniteArithmetic.

Import Num.

Lemma Qzero_spec (q : Q) : Qzero q = true <-> q == 0.
Proof.
  unfold Qzero. destruct (Qcompare_spec q 0) as [H|H|H]; split; intros E;
    try discriminate; try reflexivity; try assumption; lra.
Qed.

Lemma Qzero_eq (p q : Q) : p == q -> Qzero p = Qzero q.
Proof. intros H. unfold Qzero. now rewrite H. Qed.

Lemma has_value_cases (a : num) (q : Q) :
  has_value a q ->
  (a = NegZero /\ q == 0) \/ (exists p, a = Fin p /\ p == q).
Proof.
  intros [Hf Hq]. destruct a; try discriminate; simpl in Hq.
  - left. split; [reflexivity|]. now symmetry.
  - right. eauto.
Qed.

Lemma has_value_eq (a : num) (p q : Q) : has_value a p -> p == q -> has_value a q.
Proof. intros [Hf Hq] E. split; [assumption|]. now rewrite Hq. Qed.

Lemma has_value_fin (q : Q) : has_value (Fin q) q.
Proof. split; reflexivity. Qed.

Lemma has_value_lit (z : Z) : has_value (lit z) (inject_Z z).
Proof. split; reflexivity. Qed.

Lemma has_value_qval (a : num) : is_finite a = true -> has_value a (qval a).
Proof. intros H. split; [assumption|reflexivity]. Qed.

Lemma zero_of_value (s : bool) : has_value (zero_of s) 0.
Proof. destruct s; split; reflexivity. Qed.

Lemma fin_signed_value (s : bool) (q : Q) : has_value (fin_signed s q) q.
Proof.
  unfold fin_signed. destruct (Qzero q) eqn:E.
  - apply Qzero_spec in E. eapply has_value_eq; [apply zero_of_value|].
    now symmetry.
  - apply has_value_fin.
Qed.

Lemma neg_value (a : num) (p : Q) : has_value a p -> has_value (neg a) (- p).
Proof.
  intros [[-> E]|(x & -> & E)]%has_value_cases; simpl.
  - split; [reflexivity|]. simpl. lra.
  - destruct (Qzero x) eqn:Z.
    + apply Qzero_spec in Z. split; [reflexivity|]. simpl. lra.
    + split; [reflexivity|]. simpl. lra.
Qed.

Lemma add_value (a b : num) (p q : Q) :
  has_value a p -> has_value b q -> has_value (add a b) (p + q).
Proof.
  intros [[-> E]|(x & -> & E)]%has_value_cases
         [[-> F]|(y & -> & F)]%has_value_cases; simpl;
    (split; [reflexivity|]); simpl; lra.
Qed.

Lemma sub_value (a b : num) (p q : Q) :
  has_value a p -> has_value b q -> has_value (sub a b) (p - q).
Proof.
  intros Ha Hb. unfold sub.
  eapply has_value_eq; [apply add_value; [exact Ha|apply neg_value, Hb]|].
  lra.
Qed.

Lemma mul_value (a b : num) (p q : Q) :
  has_value a p -> has_value b q -> has_value (mul a b) (p * q).
Proof.
  intros Ha Hb.
  assert (E : qval a * qval b == p * q).
  { destruct Ha as [_ ->], Hb as [_ ->]. reflexivity. }
  destruct Ha as [Fa _], Hb as [Fb _].
  destruct a, b; try discriminate; unfold mul;
    (eapply has_value_eq; [apply fin_signed_value|exact E]).
Qed.

Lemma div_value (a b : num) (p q : Q) :
  has_value a p -> has_value b q -> ~ q == 0 -> has_value (div a b) (p / q).
Proof.
  intros Ha Hb Hq.
  assert (E : qval a / qval b == p / q).
  { destruct Ha as [_ ->], Hb as [_ ->]. reflexivity. }
  assert (Z : Qzero (qval b) = false).
  { destruct Hb as [_ Hb]. rewrite (Qzero_eq _ _ Hb).
    destruct (Qzero q) eqn:Z; [|reflexivity]. now apply Qzero_spec in Z. }
  destruct Ha as [Fa _], Hb as [Fb _].
  destruct a, b; try discriminate; unfold div; rewrite Z;
    (eapply has_value_eq; [apply fin_signed_value|exact E]).
Qed.

Lemma abs_value (a : num) (p : Q) : has_value a p -> has_value (abs a) (Qabs p).
Proof.
  intros [[-> E]|(x & -> & E)]%has_value_cases; simpl;
    (split; [reflexivity|]); simpl.
  - rewrite E. reflexivity.
  - now rewrite E.
Qed.

Lemma cmp_value (a b : num) (p q : Q) :
  has_value a p -> has_value b q -> cmp a b = Some (p ?= q).
Proof.
  intros [Fa Ea] [Fb Eb].
  destruct a, b; try discriminate; unfold cmp, qval in *;
    now rewrite <- Ea, <- Eb.
Qed.


Lemma le_value (a b : num) (p q : Q) :
  has_value a p -> has_value b q -> (le a b = true <-> p <= q).
Proof.
  intros Ha Hb. unfold le. rewrite (cmp_value _ _ _ _ Ha Hb).
  destruct (Qcompare_spec p q); split; intros; try discriminate;
    try reflexivity; lra.
Qed.

Lemma strict_eq_value (a b : num) (p q : Q) :
  has_value a p -> has_value b q -> (strict_eq a b = true <-> p == q).
Proof.
  intros Ha Hb. unfold strict_eq. rewrite (cmp_value _ _ _ _ Ha Hb).
  destruct (Qcompare_spec p q); split; intros; try discriminate;
    try reflexivity; lra.
Qed.

Lemma truthy_value (a : num) (p : Q) :
  has_value a p -> truthy a = negb (Qzero p).
Proof.
  intros [[-> E]|(x & -> & E)]%has_value_cases; simpl.
  - symmetry. apply negb_false_iff. now apply Qzero_spec.
  - now rewrite (Qzero_eq _ _ E).
Qed.

Lemma min_value (a b : num) (p q : Q) :
  has_value a p -> has_value b q -> has_value (Num.min a b) (Qmin p q).
Proof.
  intros Ha Hb. unfold Num.min. rewrite (cmp_value _ _ _ _ Ha Hb).
  destruct (Qcompare_spec p q) as [E|E|E].
  - destruct (signbit a).
    + eapply has_value_eq; [exact Ha|]. rewrite Q.min_l; lra.
    + eapply has_value_eq; [exact Hb|]. rewrite Q.min_r; lra.
  - eapply has_value_eq; [exact Ha|]. rewrite Q.min_l; lra.
  - eapply has_value_eq; [exact Hb|]. rewrite Q.min_r; lra.
Qed.

Lemma max_value (a b : num) (p q : Q) :
  has_value a p -> has_value b q -> has_value (Num.max a b) (Qmax p q).
Proof.
  intros Ha Hb. unfold Num.max. rewrite (cmp_value _ _ _ _ Ha Hb).
  destruct (Qcompare_spec p q) as [E|E|E].
  - destruct (signbit a).
    + eapply has_value_eq; [exact Hb|]. rewrite Q.max_r; lra.
    + eapply has_value_eq; [exact Ha|]. rewrite Q.max_l; lra.
  - eapply has_value_eq; [exact Hb|]. rewrite Q.max_r; lra.
  - eapply has_value_eq; [exact Ha|]. rewrite Q.max_l; lra.
Qed.

End FiniteArithmetic.

(* ===================================================================== *)
(** ** Bounds *)
(* ===================================================================== *)

(** Case analysis on the comparisons of the values of numbers. *)
Ltac by_cases :=
  unfold bound, Dynamic.within, Num.le, Num.lt, Num.gt, Num.strict_eq,
         Num.min, Num.max, Num.lit in *;
  cbn -[Qcompare] in *;
  repeat (match goal with
          | |- context [?p ?= ?q] => destruct (Qcompare_spec p q)
          | H : context [?p ?= ?q] |- _ => destruct (Qcompare_spec p q)
          end; cbn -[Qcompare] in * );
  try discriminate; try reflexivity; try lra.

Section Bounds.

Import Num Dynamic.

Lemma is_finite_add (a b : num) :
  is_finite a = true -> is_finite b = true -> is_finite (add a b) = true.
Proof. intros Ha Hb. now destruct a, b. Qed.

Lemma is_finite_neg (a : num) : is_finite a = true -> is_finite (neg a) = true.
Proof. intros Ha. destruct a; try discriminate; simpl; auto. now destruct (Qzero q). Qed.

Lemma is_finite_sub (a b : num) :
  is_finite a = true -> is_finite b = true -> is_finite (sub a b) = true.
Proof. intros Ha Hb. apply is_finite_add; [assumption|now apply is_finite_neg]. Qed.

Lemma is_finite_mul (a b : num) :
  is_finite a = true -> is_finite b = true -> is_finite (mul a b) = true.
Proof.
  intros Ha Hb.
  exact (proj1 (mul_value _ _ _ _ (has_value_qval a Ha) (has_value_qval b Hb))).
Qed.

Lemma is_finite_div_lit (a : num) (z : Z) :
  is_finite a = true -> z <> 0%Z -> is_finite (div a (lit z)) = true.
Proof.
  intros Ha Hz.
  refine (proj1 (div_value _ _ _ _ (has_value_qval a Ha) (has_value_lit z) _)).
  intros E. apply Hz. unfold Qeq in E. simpl in E. lia.
Qed.

Lemma is_finite_min (a b : num) :
  is_finite a = true -> is_finite b = true -> is_finite (Num.min a b) = true.
Proof.
  intros Ha Hb.
  exact (proj1 (min_value _ _ _ _ (has_value_qval a Ha) (has_value_qval b Hb))).
Qed.

Lemma is_finite_max (a b : num) :
  is_finite a = true -> is_finite b = true -> is_finite (Num.max a b) = true.
Proof.
  intros Ha Hb.
  exact (proj1 (max_value _ _ _ _ (has_value_qval a Ha) (has_value_qval b Hb))).
Qed.

(** [bound] does clamp, when the bounds are in order and [x] is a number. *)
Lemma bound_within (x lo hi : num) :
  le lo hi = true -> is_nan x = false -> within (bound x lo hi) lo hi = true.
Proof. intros H N. destruct x, lo, hi; try discriminate; by_cases. Qed.



Lemma finite_not_nan (a : num) : is_finite a = true -> is_nan a = false.
Proof. now destruct a. Qed.

Lemma within_not_nan (x lo hi : num) : within x lo hi = true -> is_nan x = false.
Proof. unfold within, le. destruct x, lo; simpl; auto. Qed.

(** The position [update] computes before clamping is finite, whether the
    target is finite or one of the infinities. *)
Lemma update_next_finite (e cs : num) (d : t) (x : num) :
  is_finite (current d) = true -> is_finite cs = true -> is_finite e = true ->
  update_next e cs d = Some x -> is_finite x = true.
Proof.
  intros Hc Hs He. unfold update_next.
  assert (Hm : is_finite (div (mul cs e) (lit 1000)) = true).
  { apply is_finite_div_lit; [now apply is_finite_mul|discriminate]. }
  assert (Hp := is_finite_add _ _ Hc Hm).
  assert (Hq := is_finite_sub _ _ Hc Hm).
  destruct (gt (current d) (target d) && truthy cs) eqn:G.
  - apply andb_true_iff in G as [G _]. intros [= <-].
    destruct (target d) eqn:T, (current d), (sub _ _);
      try discriminate; by_cases.
  - destruct (lt (current d) (target d) && truthy cs) eqn:L; [|discriminate].
    apply andb_true_iff in L as [L _]. intros [= <-].
    destruct (target d) eqn:T, (current d), (add _ _);
      try discriminate; by_cases.
Qed.

Lemma update_speed_finite (e : num) (m : mode_t) (d : t) :
  is_finite (currentSpeed d) = true -> is_finite (speed d) = true ->
  is_finite (speedMult d) = true -> is_finite e = true ->
  is_finite (update_speed e m d) = true.
Proof.
  intros Hc Hs Hm He.
  assert (Ht : is_finite (targetSpeed m d) = true).
  { unfold targetSpeed. destruct (mode_eqb m STOP); [reflexivity|].
    now apply is_finite_mul. }
  assert (Hr : is_finite (ramp e d) = true).
  { unfold ramp. repeat apply is_finite_mul; try assumption; try reflexivity.
    apply is_finite_div_lit; [assumption|discriminate]. }
  unfold update_speed.
  destruct (lt _ _); [apply is_finite_min; [assumption|now apply is_finite_add]|].
  destruct (gt _ _); [apply is_finite_max; [assumption|now apply is_finite_sub]|].
  assumption.
Qed.





End Bounds.

Section BoundsTheorem.

Import Num Dynamic.




End BoundsTheorem.

(* ===================================================================== *)
(** ** [Dynamic.update] on finite values *)
(* ===================================================================== *)

Section UpdateValues.

Import Num Dynamic.

Variables (e : num) (dt s tq c v : Q) (d : t).
Hypotheses
  (He : has_value e dt)
  (Hs : has_value (speed d) s) (Hspos : 0 < s)
  (Hm : has_value (speedMult d) 1)
  (Ht : has_value (target d) tq)
  (Hc : has_value (current d) c)
  (Hv : has_value (currentSpeed d) v).

Lemma lit_1000_value : has_value (lit 1000) 1000.
Proof. split; reflexivity. Qed.

Lemma dstStop_value : has_value (dstStop d) (Rat.brake s v).
Proof.
  unfold dstStop, Rat.brake.
  apply div_value.
  - now apply mul_value.
  - apply mul_value; [now apply mul_value|]. split; reflexivity.
  - lra.
Qed.

Lemma ramp_value : has_value (ramp e d) (Rat.ramp dt s).
Proof.
  unfold ramp, Rat.ramp.
  repeat apply mul_value; try assumption; try (split; reflexivity).
  apply div_value; [assumption|apply lit_1000_value|lra].
Qed.

Lemma update_mode_value :
  update_mode d =
    match mode d with
    | STOP => STOP
    | INFINITE => INFINITE
    | POSITION => if Rat.in_window s tq c v then STOP else POSITION
    end.
Proof.
  unfold update_mode. destruct (mode d); try reflexivity. simpl.
  unfold lt, Rat.in_window.
  rewrite (cmp_value _ _ _ _
             (abs_value _ _ (sub_value _ _ _ _ Ht Hc)) dstStop_value).
  reflexivity.
Qed.

Lemma update_speed_value (m : mode_t) :
  has_value (update_speed e m d) (Rat.speed (mode_eqb m STOP) dt s v).
Proof.
  unfold update_speed, Rat.speed, targetSpeed.
  set (ts := if mode_eqb m STOP then lit 0 else mul (speed d) (speedMult d)).
  set (tsq := if mode_eqb m STOP then 0 else s * 1).
  assert (Hts : has_value ts tsq).
  { subst ts tsq. destruct (mode_eqb m STOP).
    - split; reflexivity.
    - now apply mul_value. }
  unfold gt, lt.
  rewrite (cmp_value _ _ _ _ Hv Hts), (cmp_value _ _ _ _ Hts Hv).
  rewrite <- (Qcompare_antisym v tsq).
  destruct (v ?= tsq); simpl.
  - assumption.
  - apply min_value; [assumption|]. apply add_value; [assumption|apply ramp_value].
  - apply max_value; [assumption|]. apply sub_value; [assumption|apply ramp_value].
Qed.

Lemma update_next_value (cs : num) (v' : Q) :
  has_value cs v' ->
  match update_next e cs d, Rat.next dt tq c v' with
  | Some x, Some q => has_value x q
  | None, None => True
  | _, _ => False
  end.
Proof.
  intros Hcs. unfold update_next, Rat.next, gt, lt.
  rewrite (cmp_value _ _ _ _ Ht Hc), (cmp_value _ _ _ _ Hc Ht).
  rewrite <- (Qcompare_antisym tq c), (truthy_value _ _ Hcs).
  assert (Hd : has_value (div (mul cs e) (lit 1000)) (v' * dt / 1000)).
  { apply div_value; [now apply mul_value|apply lit_1000_value|lra]. }
  destruct (tq ?= c); simpl; [exact I| |]; destruct (Qzero v'); simpl; try exact I.
  - apply max_value; [assumption|]. now apply sub_value.
  - apply min_value; [assumption|]. now apply add_value.
Qed.

End UpdateValues.

Section Toward.

Import Num Dynamic.


End Toward.

(** Replace the minima and maxima of rationals by what they are equal to. *)
Ltac qminmax :=
  repeat match goal with
    | |- context [Qmax ?a ?b] =>
        let H := fresh "Hmax" in let m := fresh "m" in
        pose proof (Q.max_spec a b) as H; set (m := Qmax a b) in *;
        clearbody m; destruct H as [[? ?]|[? ?]]
    | |- context [Qmin ?a ?b] =>
        let H := fresh "Hmin" in let m := fresh "m" in
        pose proof (Q.min_spec a b) as H; set (m := Qmin a b) in *;
        clearbody m; destruct H as [[? ?]|[? ?]]
    | H0 : context [Qmax ?a ?b] |- _ =>
        let H := fresh "Hmax" in let m := fresh "m" in
        pose proof (Q.max_spec a b) as H; set (m := Qmax a b) in *;
        clearbody m; destruct H as [[? ?]|[? ?]]
    | H0 : context [Qmin ?a ?b] |- _ =>
        let H := fresh "Hmin" in let m := fresh "m" in
        pose proof (Q.min_spec a b) as H; set (m := Qmin a b) in *;
        clearbody m; destruct H as [[? ?]|[? ?]]
    end.

Section RationalBlocks.

Variables (dt s : Q).
Hypotheses (Hdt : 0 < dt) (Hs : 0 < s).

Lemma ramp_pos : 0 < Rat.ramp dt s.
Proof.
  unfold Rat.ramp.
  assert (0 < dt / 1000) by (apply Qlt_shift_div_l; lra).
  assert (0 < dt / 1000 * s) by (apply Qmult_lt_0_compat; assumption).
  lra.
Qed.

Lemma speed_nonneg (stopped : bool) (v : Q) :
  0 <= v -> 0 <= Rat.speed stopped dt s v.
Proof.
  intros Hv. pose proof ramp_pos as Hr. unfold Rat.speed.
  destruct stopped; cbv zeta;
    match goal with |- context [?a ?= ?b] => destruct (Qcompare_spec a b) end;
    qminmax; lra.
Qed.

(** In mode [STOP] the speed goes down by the ramp, and not below 0. *)
Lemma speed_stopped (v : Q) :
  0 <= v -> Rat.speed true dt s v == Qmax 0 (v - Rat.ramp dt s).
Proof.
  intros Hv. pose proof ramp_pos as Hr. unfold Rat.speed. cbv zeta.
  destruct (Qcompare_spec v 0); qminmax; lra.
Qed.




End RationalBlocks.

(* ===================================================================== *)
(** ** Seeking a finite target *)
(* ===================================================================== *)

Section Seeking.

Import Num Dynamic.

Variables (e : num) (dt s tq : Q) (d0 : t).
Hypotheses
  (He : has_value e dt) (Hdt : 0 < dt)
  (Hs : has_value (speed d0) s) (Hspos : 0 < s)
  (Hm : has_value (speedMult d0) 1)
  (Ht : has_value (target d0) tq)
  (Hw : within (target d0) (min d0) (max d0) = true).

Lemma on_course_intro (d : t) (c v : Q) (m : mode_t) (cur cs : num) (c' v' : Q) :
  Spec.on_course d0 d c v ->
  m = POSITION \/ m = STOP ->
  has_value cur c' -> has_value cs v' -> 0 <= v' ->
  Spec.on_course d0
    (mk (fn d) m (speed d) (speedMult d) cs (target d) cur (min d) (max d))
    c' v'.
Proof.
  intros (Efn & Esp & Esm & Etg & Emin & Emax & _) Hmode Hc Hv Hv0.
  unfold Spec.on_course. simpl. tauto.
Qed.


End Seeking.

Section Course.

Import Num Dynamic.

Variables (e : num) (dt s tq : Q) (d0 : t).
Hypotheses
  (He : has_value e dt) (Hdt : 0 < dt)
  (Hs : has_value (speed d0) s) (Hspos : 0 < s)
  (Hm : has_value (speedMult d0) 1)
  (Ht : has_value (target d0) tq)
  (Hw : within (target d0) (min d0) (max d0) = true).


Lemma run_add (a b : nat) (d : t) : run (a + b) e d = run b e (run a e d).
Proof. revert d. induction a as [|a IH]; intros d; simpl; auto. Qed.

Lemma run_fixed (k : nat) (d : t) : update_state e d = d -> run k e d = d.
Proof. intros H. induction k as [|k IH]; simpl; [reflexivity|]. now rewrite H. Qed.

(** At rest, that is in mode [STOP] with a zero speed, [update] changes
    nothing. *)
Lemma rest_fixed (d : t) :
  mode d = STOP -> strict_eq (currentSpeed d) (lit 0) = true ->
  update e d = (d, [], false).
Proof.
  intros Hmode Hz. unfold update.
  assert (Em : update_mode d = STOP) by (unfold update_mode; now rewrite Hmode).
  assert (Es : update_speed e (update_mode d) d = currentSpeed d).
  { unfold update_speed, targetSpeed, gt. rewrite Em. simpl.
    rewrite !zeros_not_lt by (assumption || reflexivity). reflexivity. }
  rewrite Es.
  assert (En : update_next e (currentSpeed d) d = None).
  { unfold update_next. rewrite (zero_not_truthy _ Hz), !andb_false_r.
    reflexivity. }
  rewrite En, Em. destruct d; simpl in *. now subst.
Qed.

Lemma in_window_spec (c v : Q) :
  Rat.in_window s tq c v = true <-> Qabs (tq - c) < Rat.brake s v.
Proof.
  unfold Rat.in_window.
  destruct (Qcompare_spec (Qabs (tq - c)) (Rat.brake s v));
    split; intros; try discriminate; try reflexivity; lra.
Qed.


End Course.

Section Archimedes.




End Archimedes.

Section Phases.

Import Num Dynamic.

Variables (e : num) (dt s tq : Q) (d0 : t).
Hypotheses
  (He : has_value e dt) (Hdt : 0 < dt)
  (Hs : has_value (speed d0) s) (Hspos : 0 < s)
  (Hm : has_value (speedMult d0) 1)
  (Ht : has_value (target d0) tq)
  (Hw : within (target d0) (min d0) (max d0) = true).







End Phases.

(* ===================================================================== *)
(** ** Convergence *)
(* ===================================================================== *)

Section Convergence.

Import Num Dynamic.




(** The same at four frames a second: with [speed] 1 and a target of
    21/16, braking starts at 9/8 and ends at 5/4, 1/16 short, after seven
    calls of [update(250)]. *)
Example stops_short_at_250ms :
  let d := run 7 (lit 250) Ex.seeking_1_21_16 in
  Spec.ready (lit 250) Ex.seeking_1_21_16 /\
  Spec.at_rest d /\
  update (lit 250) d = (d, [], false) /\
  strict_eq (current d) (Fin (5 # 4)) = true /\
  strict_eq (sub (target d) (current d)) (Fin (1 # 16)) = true.
Proof. vm_compute. repeat split. Qed.



End Convergence.

(* ===================================================================== *)
(** ** No tolerance fits every controller *)
(* ===================================================================== *)

Section Unbounded.

Import Num Dynamic.

Variables (e : num) (dt s tq : Q) (d0 : t).
Hypotheses
  (He : has_value e dt) (Hdt : 0 < dt)
  (Hs : has_value (speed d0) s) (Hspos : 0 < s)
  (Hm : has_value (speedMult d0) 1)
  (Ht : has_value (target d0) tq)
  (Hlo : min d0 = NInf) (Hhi : max d0 = PInf).

Lemma bound_unbounded (x : num) : is_finite x = true -> bound x NInf PInf = x.
Proof. intros H. now destruct x. Qed.

(** Without bounds, the position after an [update] is the one the third
    block computes. *)
Lemma update_exact (d : t) (c v : Q) :
  Spec.on_course d0 d c v ->
  let m' := Spec.next_mode s tq (mode d) c v in
  let v' := Rat.speed (mode_eqb m' STOP) dt s v in
  exists c',
    Spec.on_course d0 (update_state e d) c' v' /\
    mode (update_state e d) = m' /\
    c' == match Rat.next dt tq c v' with Some q => q | None => c end.
Proof.
  intros Hon m' v'.
  pose proof Hon as (Efn & Esp & Esm & Etg & Emin & Emax & Hmode & Hc & Hv & Hv0).
  assert (Hs' : has_value (speed d) s) by now rewrite Esp.
  assert (Hm' : has_value (speedMult d) 1) by now rewrite Esm.
  assert (Ht' : has_value (target d) tq) by now rewrite Etg.
  assert (Em : update_mode d = m').
  { subst m'. unfold Spec.next_mode.
    apply (update_mode_value s tq c v d Hs' Hspos Hm' Ht' Hc Hv). }
  assert (Hmode' : update_mode d = POSITION \/ update_mode d = STOP).
  { rewrite Em. subst m'. unfold Spec.next_mode.
    destruct Hmode as [-> | ->]; [destruct (Rat.in_window _ _ _ _)|]; auto. }
  assert (Hcs : has_value (update_speed e (update_mode d) d) v').
  { rewrite Em. apply (update_speed_value e dt s v d He Hs' Hm' Hv). }
  assert (Hv0' : 0 <= v') by (apply speed_nonneg; assumption).
  pose proof (update_next_value e dt tq c d He Ht' Hc _ v' Hcs) as Hn.
  clearbody v' m'.
  unfold update_state, update. rewrite Emin, Emax, Hlo, Hhi.
  destruct (update_next e _ d) as [x|] eqn:En;
    destruct (Rat.next dt tq c v') as [q|] eqn:Eq; try contradiction.
  - rewrite (bound_unbounded x) by apply Hn.
    destruct (strict_ne x (current d)) eqn:Ene; simpl.
    + exists q. split; [|split; [assumption|reflexivity]].
      rewrite <- Hlo, <- Hhi, <- Emin, <- Emax.
      now apply (on_course_intro d0 d c v).
    + exists q. split; [|split; [assumption|reflexivity]].
      assert (Er : q == c).
      { apply (strict_eq_value _ _ _ _ Hn Hc).
        unfold strict_ne in Ene. now apply negb_false_iff in Ene. }
      rewrite <- Hlo, <- Hhi, <- Emin, <- Emax.
      apply (on_course_intro d0 d c v); try assumption.
      eapply has_value_eq; [exact Hc|now symmetry].
  - simpl. exists c. split; [|split; [assumption|reflexivity]].
    rewrite <- Hlo, <- Hhi, <- Emin, <- Emax.
    now apply (on_course_intro d0 d c v).
Qed.

End Unbounded.

Section NoTolerance.

Import Num Dynamic.

Variable k : Q.
Hypothesis Hk : 0 < k.

Let d0 : t := Ex.seeking_scaled k.
Let e : num := lit 1000.

Lemma scaled_ready : Spec.ready e d0.
Proof.
  unfold Spec.ready, d0, e, Ex.seeking_scaled, within, lt, le, strict_eq.
  cbn -[Qcompare Qmult].
  assert (H8 : (inject_Z 0 ?= 8 * k) = Lt)
    by (apply -> Qlt_alt; change (inject_Z 0) with 0; lra).
  rewrite H8. repeat split.
Qed.

(** The run of the scaled controller: at 0, then at [8 * k] for ever. *)
Lemma scaled_run (n : nat) :
  exists cn, has_value (current (run n e d0)) cn /\ (cn == 0 \/ cn == 8 * k).
Proof.
  assert (He : has_value e 1000) by (split; reflexivity).
  assert (Hs : has_value (speed d0) (8 * k)) by (split; reflexivity).
  assert (Hm : has_value (speedMult d0) 1) by (split; reflexivity).
  assert (Ht : has_value (target d0) (9 * k)) by (split; reflexivity).
  assert (Hdt : 0 < 1000) by lra.
  assert (Hspos : 0 < 8 * k) by lra.
  assert (Hon0 : Spec.on_course d0 d0 0 0).
  { unfold Spec.on_course. repeat split; auto; try lra. }
  assert (Er : Rat.ramp 1000 (8 * k) == 16 * k) by (unfold Rat.ramp; field).
  (* first call: full speed, and a stride of [8 * k] *)
  destruct (update_exact e 1000 (8 * k) (9 * k) d0 He Hdt Hs Hspos Hm Ht
              eq_refl eq_refl d0 0 0 Hon0) as (c1 & Hon1 & Hmode1 & Ec1).
  assert (W0 : Rat.in_window (8 * k) (9 * k) 0 0 = false).
  { destruct (Rat.in_window _ _ _ _) eqn:W; [|reflexivity].
    apply in_window_spec in W. unfold Rat.brake in W.
    assert (E0 : 0 * 0 / (8 * k * 1 * 4) == 0) by (field; lra).
    rewrite E0 in W. pose proof (Qabs_nonneg (9 * k - 0)). lra. }
  change (mode d0) with POSITION in Hon1, Hmode1, Ec1.
  unfold Spec.next_mode in Hon1, Hmode1, Ec1. rewrite W0 in Hon1, Hmode1, Ec1.
  change (mode_eqb POSITION STOP) with false in Hon1, Ec1.
  assert (Ev1 : Rat.speed false 1000 (8 * k) 0 == 8 * k).
  { unfold Rat.speed. cbv zeta.
    destruct (Qcompare_spec 0 (8 * k * 1)); try lra.
    rewrite Er. rewrite Q.min_l; lra. }
  assert (Ec1' : c1 == 8 * k).
  { rewrite Ec1. unfold Rat.next.
    destruct (Qcompare_spec (9 * k) 0); try lra.
    destruct (Qzero _) eqn:Z; [apply Qzero_spec in Z; lra|].
    rewrite Ev1. rewrite Q.min_r; [field|].
    assert (0 + 8 * k * 1000 / 1000 == 8 * k) by field. lra. }
  (* second call: inside the window, the speed drops to 0 *)
  set (v1 := Rat.speed false 1000 (8 * k) 0) in *.
  set (d1 := update_state e d0) in *.
  destruct (update_exact e 1000 (8 * k) (9 * k) d0 He Hdt Hs Hspos Hm Ht
              eq_refl eq_refl d1 c1 v1 Hon1) as (c2 & Hon2 & Hmode2 & Ec2).
  assert (W1 : Rat.in_window (8 * k) (9 * k) c1 v1 = true).
  { apply in_window_spec. unfold Rat.brake. rewrite Ec1', Ev1.
    assert (E1 : 9 * k - 8 * k == k) by ring.
    assert (E2 : 8 * k * (8 * k) / (8 * k * 1 * 4) == 2 * k) by (field; lra).
    rewrite E1, E2, Qabs_pos; lra. }
  rewrite Hmode1 in Hon2, Hmode2, Ec2.
  unfold Spec.next_mode in Hon2, Hmode2, Ec2. rewrite W1 in Hon2, Hmode2, Ec2.
  change (mode_eqb STOP STOP) with true in Hon2, Ec2.
  assert (Ev2 : Rat.speed true 1000 (8 * k) v1 == 0).
  { rewrite speed_stopped by lra. rewrite Er, Ev1. rewrite Q.max_l; lra. }
  assert (Ec2' : c2 == 8 * k).
  { rewrite Ec2. unfold Rat.next.
    rewrite (Qzero_eq _ _ Ev2). change (Qzero 0) with true.
    destruct (9 * k ?= c1); assumption. }
  pose proof Hon2 as (_ & _ & _ & _ & _ & _ & _ & Hc2 & Hv2 & _).
  assert (Hrest : strict_eq (currentSpeed (update_state e d1)) (lit 0) = true).
  { apply (strict_eq_value _ _ _ _ Hv2 (has_value_lit 0)). exact Ev2. }
  pose proof (rest_fixed e _ Hmode2 Hrest) as Hfix.
  destruct n as [|[|n]].
  - exists 0. split; [apply Hon0|now left].
  - exists c1. split; [apply Hon1|now right].
  - exists c2. split; [|now right].
    replace (S (S n)) with (2 + n)%nat by lia.
    rewrite run_add. change (run 2 e d0) with (update_state e d1).
    rewrite run_fixed; [exact Hc2|].
    unfold update_state at 1. now rewrite Hfix.
Qed.

(** The scaled controller never comes within less than [k] of its
    target. *)
Lemma scaled_never_near (eps : Q) :
  eps < k -> ~ Spec.converges (Fin eps) e d0.
Proof.
  intros Heps (n & Hgap & _).
  destruct (scaled_run n) as (cn & Hcn & Hv).
  assert (Ht : has_value (target d0) (9 * k)) by (split; reflexivity).
  apply (le_value _ _ _ _
           (abs_value _ _ (sub_value _ _ _ _ Hcn Ht)) (has_value_fin eps)) in Hgap.
  apply Qabs_Qle_condition in Hgap. destruct Hv as [E|E]; rewrite E in Hgap; lra.
Qed.

End NoTolerance.

(** However large the tolerance, some controller that meets the premises
    of the convergence property stays further than that from its target:
    the distance left at rest grows with the speed. *)
Lemma no_tolerance_fits (eps : Q) :
  exists d : Dynamic.t,
    Spec.ready (Num.lit 1000) d /\
    ~ Spec.converges (Num.Fin eps) (Num.lit 1000) d.
Proof.
  assert (Hk : 0 < Qabs eps + 1) by (pose proof (Qabs_nonneg eps); lra).
  exists (Ex.seeking_scaled (Qabs eps + 1)). split.
  - now apply scaled_ready.
  - apply scaled_never_near; [assumption|].
    pose proof (Qle_Qabs eps). lra.
Qed.

(* ===================================================================== *)
(** ** More on [Dynamic.update] *)
(* ===================================================================== *)

Section UpdateFrame.

Import Num Dynamic.

Lemma update_frame (e : num) (d : t) :
  let d' := update_state e d in
  fn d' = fn d /\ speed d' = speed d /\ speedMult d' = speedMult d /\
  target d' = target d /\ min d' = min d /\ max d' = max d /\
  mode d' = update_mode d.
Proof.
  unfold update_state, update.
  destruct (update_next e _ d); [destruct (strict_ne _ _)|]; repeat split.
Qed.

Lemma update_mode_cases (d : t) :
  update_mode d = mode d \/ (mode d = POSITION /\ update_mode d = STOP).
Proof.
  unfold update_mode. destruct (mode d); simpl; auto.
  destruct (lt _ _); auto.
Qed.

(** X1: however many times [update] is called, it writes [mode],
    [currentSpeed] and [current] only, and the one change of mode it makes
    is from [POSITION] to [STOP]: a rolling controller keeps rolling and a
    stopped one stays stopped. *)
Theorem run_frame (n : nat) (e : num) (d : t) :
  let d' := run n e d in
  fn d' = fn d /\ speed d' = speed d /\ speedMult d' = speedMult d /\
  target d' = target d /\ min d' = min d /\ max d' = max d /\
  (mode d' = mode d \/ (mode d = POSITION /\ mode d' = STOP)).
Proof.
  revert d. induction n as [|n IH]; intros d; simpl.
  - repeat split. now left.
  - destruct (IH (update_state e d)) as (H1 & H2 & H3 & H4 & H5 & H6 & H7).
    destruct (update_frame e d) as (F1 & F2 & F3 & F4 & F5 & F6 & F7).
    rewrite H1, H2, H3, H4, H5, H6.
    repeat split; try assumption.
    rewrite F7 in H7.
    destruct (update_mode_cases d) as [E|[E1 E2]].
    + rewrite E in H7. exact H7.
    + right. split; [exact E1|].
      destruct H7 as [H7|[H7 _]]; congruence.
Qed.

(** X2: at rest, that is in mode [STOP] with a zero [currentSpeed], no
    sequence of [update] calls does anything, whatever the values of
    [elapsed] (NaN and the infinities included): the state is kept and no
    callback is called.  A new controller is at rest. *)
Theorem updates_at_rest (es : list num) (d : t) :
  Spec.at_rest d -> execs (map Update es) d = (d, []).
Proof.
  intros [Hm Hz]. induction es as [|e es IH]; simpl; [reflexivity|].
  rewrite (rest_fixed e d Hm Hz). simpl. now rewrite IH.
Qed.

Lemma updates_at_rest_witness :
  execs (map Update [lit 16; NaN; PInf]) (new (Some 3%nat) (lit 5) (lit 10))
  = (new (Some 3%nat) (lit 5) (lit 10), []).
Proof.
  apply (updates_at_rest [lit 16; NaN; PInf]). split; reflexivity.
Defined.

End UpdateFrame.

Section UpdateBounds.

Import Num Dynamic.

(** X3: when [update] moves [current], the new value is within
    [[min,max]], wherever [current] was before (a new controller may be
    outside): it is enough that the bounds are in order and that
    [current], the speeds and [elapsed] are finite. *)
Theorem update_lands_within (e : num) (d : t) :
  le (min d) (max d) = true ->
  is_finite (current d) = true -> is_finite (currentSpeed d) = true ->
  is_finite (speed d) = true -> is_finite (speedMult d) = true ->
  is_finite e = true ->
  update_changed e d = true ->
  within (current (update_state e d)) (min d) (max d) = true.
Proof.
  intros LH Fc Fs Fv Fm Fe.
  assert (Fs' := update_speed_finite e (update_mode d) d Fs Fv Fm Fe).
  unfold update_changed, update_state, update.
  destruct (update_next e _ d) as [x|] eqn:N; [|discriminate].
  assert (Fx := update_next_finite _ _ _ _ Fc Fs' Fe N).
  destruct (strict_ne _ _); [|discriminate]. simpl. intros _.
  apply bound_within; [assumption|now apply finite_not_nan].
Qed.

Lemma update_lands_within_witness :
  let d := goto (lit 7) (lit 1) (set_speed (lit 1) Ex.fresh_5_10) in
  within (current d) (min d) (max d) = false /\
  within (current (update_state (lit 250) d)) (min d) (max d) = true.
Proof.
  split; [reflexivity|].
  apply (update_lands_within (lit 250)); reflexivity.
Defined.

Lemma max_ge_l (t y : num) :
  is_nan t = false -> is_nan y = false -> le t (Num.max t y) = true.
Proof. intros Ht Hy. destruct t, y; try discriminate; by_cases. Qed.

Lemma min_le_l (t y : num) :
  is_nan t = false -> is_nan y = false -> le (Num.min t y) t = true.
Proof. intros Ht Hy. destruct t, y; try discriminate; by_cases. Qed.

Lemma bound_ge (t x lo hi : num) :
  within t lo hi = true -> le t x = true -> le t (bound x lo hi) = true.
Proof. intros W H. destruct t, x, lo, hi; try discriminate; by_cases. Qed.

Lemma bound_le (t x lo hi : num) :
  within t lo hi = true -> le x t = true -> le (bound x lo hi) t = true.
Proof. intros W H. destruct t, x, lo, hi; try discriminate; by_cases. Qed.

Lemma lt_le_false (a b : num) : lt a b = true -> le b a = false.
Proof. destruct a, b; try discriminate; try reflexivity; by_cases. Qed.

(** X4: one [update] never takes [current] past [target], in any mode and
    whatever the signs of the speed and of [elapsed]: with a target within
    the bounds and finite [current], speeds and [elapsed], a [current] on
    one side of [target] is on the same side, or on [target], after the
    call. *)
Theorem update_never_passes (e : num) (d : t) :
  within (target d) (min d) (max d) = true ->
  is_finite (current d) = true -> is_finite (currentSpeed d) = true ->
  is_finite (speed d) = true -> is_finite (speedMult d) = true ->
  is_finite e = true ->
  (le (current d) (target d) = true ->
   le (current (update_state e d)) (target d) = true) /\
  (le (target d) (current d) = true ->
   le (target d) (current (update_state e d)) = true).
Proof.
  intros W Fc Fs Fv Fm Fe.
  assert (Fs' := update_speed_finite e (update_mode d) d Fs Fv Fm Fe).
  assert (Nt : is_nan (target d) = false) by (eapply within_not_nan; eassumption).
  assert (Fw : is_finite (div (mul (update_speed e (update_mode d) d) e) (lit 1000)) = true).
  { apply is_finite_div_lit; [now apply is_finite_mul|discriminate]. }
  unfold update_state, update, update_next.
  destruct (gt (current d) (target d) && truthy _) eqn:G.
  - apply andb_true_iff in G as [G _]. unfold gt in G.
    set (x := Num.max _ _).
    assert (Hx : le (target d) x = true).
    { apply max_ge_l; [assumption|].
      apply finite_not_nan. now apply is_finite_sub. }
    assert (Hb := bound_ge _ _ _ _ W Hx).
    destruct (strict_ne _ _); simpl; split; intros H; try assumption;
      rewrite (lt_le_false _ _ G) in H; discriminate.
  - destruct (lt (current d) (target d) && truthy _) eqn:L.
    + apply andb_true_iff in L as [L _].
      set (x := Num.min _ _).
      assert (Hx : le x (target d) = true).
      { apply min_le_l; [assumption|].
        apply finite_not_nan. now apply is_finite_add. }
      assert (Hb := bound_le _ _ _ _ W Hx).
      destruct (strict_ne _ _); simpl; split; intros H; try assumption;
        rewrite (lt_le_false _ _ L) in H; discriminate.
    + simpl. split; auto.
Qed.

Lemma update_never_passes_witness :
  let d := goto (Fin (1 # 10)) (lit 1) (set_speed (lit 1) (new_default None)) in
  le (current (update_state (lit 1000) d)) (target d) = true.
Proof.
  intros d.
  refine (proj1 (update_never_passes (lit 1000) d _ _ _ _ _ _) _); reflexivity.
Defined.

(** X5: [goto] clamps: with bounds in order, a position above [max] gives
    a target equal to [max], one below [min] a target equal to [min], one
    within the bounds is the target; and [goto] leaves [current] and
    [currentSpeed] alone. *)
Theorem goto_clamps (p sm : num) (d : t) :
  le (min d) (max d) = true ->
  (lt (max d) p = true -> strict_eq (target (goto p sm d)) (max d) = true) /\
  (lt p (min d) = true -> strict_eq (target (goto p sm d)) (min d) = true) /\
  (within p (min d) (max d) = true -> strict_eq (target (goto p sm d)) p = true) /\
  current (goto p sm d) = current d /\
  currentSpeed (goto p sm d) = currentSpeed d /\
  mode (goto p sm d) = POSITION /\ speedMult (goto p sm d) = sm.
Proof.
  intros LH. simpl.
  repeat split; intros H; destruct p, (min d), (max d);
    try discriminate; by_cases.
Qed.

Lemma goto_clamps_witness :
  strict_eq (target (goto (lit 50) (lit 1) Ex.fresh_5_10)) (lit 10) = true.
Proof.
  apply (goto_clamps (lit 50) (lit 1) Ex.fresh_5_10); reflexivity.
Defined.

End UpdateBounds.

(* ===================================================================== *)
(** ** The speed *)
(* ===================================================================== *)

Section SpeedSign.

Import Num Dynamic.





(** A negative [elapsed] does make the speed negative: after
    [d.speed = 1; d.goto(5); d.update(-1000)] it is -2. *)
Example negative_elapsed :
  strict_eq (currentSpeed (update_state (lit (-1000))
               (goto (lit 5) (lit 1) (set_speed (lit 1) (new_default None)))))
            (lit (-2)) = true.
Proof. reflexivity. Qed.

End SpeedSign.

Section SpeedNaN.

Import Num Dynamic.

Lemma exec_nan_speed (c : call) (d : t) :
  currentSpeed d = NaN ->
  currentSpeed (exec c d).1 = NaN /\ (exec c d).2 = [] /\
  (Spec.not_setCurrent c -> current (exec c d).1 = current d).
Proof.
  intros H. destruct c as [v|p sm|v sm|i sm| |v|e]; simpl;
    try (repeat split; auto; tauto).
  - unfold step. destruct (mode_eqb _ _); simpl; repeat split; auto.
  - assert (Hs : update_speed e (update_mode d) d = NaN).
    { unfold update_speed, gt. rewrite H. simpl. now rewrite lt_nan_r. }
    unfold update. rewrite Hs.
    assert (Hn : update_next e NaN d = None).
    { unfold update_next. simpl. now rewrite !andb_false_r. }
    rewrite Hn. simpl. repeat split.
Qed.

(** X7: a NaN in [currentSpeed] is for ever.  An [update(NaN)] on a
    controller whose speed is off its target speed makes [currentSpeed]
    NaN; and once it is NaN no sequence of calls changes it: every
    [update] returns [false] and calls nothing, and [current] only changes
    by [setCurrent]. *)
Theorem nan_speed_is_permanent :
  (forall d,
      strict_ne (currentSpeed d) (targetSpeed (update_mode d) d) = true ->
      is_nan (currentSpeed d) = false ->
      is_nan (targetSpeed (update_mode d) d) = false ->
      currentSpeed (update_state NaN d) = NaN) /\
  (forall cs d,
      currentSpeed d = NaN ->
      currentSpeed (execs cs d).1 = NaN /\ (execs cs d).2 = [] /\
      (Forall Spec.not_setCurrent cs -> current (execs cs d).1 = current d)).
Proof.
  split.
  - intros d Hne Nc Nt.
    assert (Hs : update_speed NaN (update_mode d) d = NaN).
    { unfold update_speed, gt.
      set (ts := targetSpeed (update_mode d) d) in *.
      assert (Hr : ramp NaN d = NaN) by reflexivity. rewrite Hr.
      unfold strict_ne in Hne.
      destruct (currentSpeed d) eqn:Ec, ts eqn:Et; try discriminate;
        by_cases. }
    unfold update_state, update. rewrite Hs.
    assert (Hn : update_next NaN NaN d = None).
    { unfold update_next. simpl. now rewrite !andb_false_r. }
    now rewrite Hn.
  - intros cs. induction cs as [|c cs IH]; intros d H; simpl.
    + repeat split. exact H.
    + destruct (exec_nan_speed c d H) as (H1 & H2 & H3).
      destruct (exec c d) as [d1 ev1]. simpl in *.
      destruct (IH d1 H1) as (I1 & I2 & I3).
      destruct (execs cs d1) as [d2 ev2]. simpl in *.
      subst. repeat split; auto.
      intros F. inversion F; subst. rewrite I3 by assumption. auto.
Qed.

Lemma nan_speed_is_permanent_witness :
  let d := update_state NaN Ex.seeking_8_9 in
  let r := execs [Update (lit 16); Goto (lit 2) (lit 1); Update (lit 16);
                  Roll false (lit 3); Update (lit 1000)] d in
  currentSpeed d = NaN /\
  currentSpeed r.1 = NaN /\ r.2 = [] /\ current r.1 = current d.
Proof.
  intros d r.
  assert (Hd : currentSpeed d = NaN).
  { apply (proj1 nan_speed_is_permanent); reflexivity. }
  split; [exact Hd|].
  destruct (proj2 nan_speed_is_permanent
              [Update (lit 16); Goto (lit 2) (lit 1); Update (lit 16);
               Roll false (lit 3); Update (lit 1000)] d Hd) as (H1 & H2 & H3).
  split; [exact H1|]. split; [exact H2|]. apply H3. repeat constructor.
Defined.

End SpeedNaN.

(* ===================================================================== *)
(** ** Stopping *)
(* ===================================================================== *)

Section Stopping.

Import Num Dynamic.


Variables (e : num) (dt s m : Q).
Hypotheses
  (He : has_value e dt)
  (Hr : 0 < dt / 1000 * s * m * 2).



End Stopping.

Section StopTheorem.

Import Num Dynamic.



(** With a zero [speed] there is no braking: the controller that rolled at
    speed 1/2 and was then given [speed = 0] still has that speed, in mode
    [STOP], after [stop()] and three calls of [update(250)], and has moved
    at each of them. *)
Example no_brake_without_speed :
  let d0 := update_state (lit 250) (roll false (lit 1) (set_speed (lit 1) (new_default None))) in
  let d := run 3 (lit 250) (stop (set_speed (lit 0) d0)) in
  strict_eq (currentSpeed d0) (Fin (1 # 2)) = true /\
  strict_eq (currentSpeed d) (Fin (1 # 2)) = true /\
  mode d = STOP /\
  strict_eq (current d0) (Fin (1 # 8)) = true /\
  strict_eq (current d) (Fin (1 # 2)) = true.
Proof. vm_compute. repeat split. Qed.

End StopTheorem.

(* ===================================================================== *)
(** ** Rolling *)
(* ===================================================================== *)

Section RollingStep.

Import Num Dynamic.





Variables (e : num) (dt s : Q) (d0 : t).
Hypotheses
  (He : has_value e dt) (Hdt : 0 < dt)
  (Hs : has_value (speed d0) s) (Hspos : 0 < s)
  (Hm : has_value (speedMult d0) 1).



End RollingStep.

Section RollingRuns.

Import Num Dynamic.

Variables (e : num) (dt s : Q) (d0 : t).
Hypotheses
  (He : has_value e dt) (Hdt : 0 < dt)
  (Hs : has_value (speed d0) s) (Hspos : 0 < s)
  (Hm : has_value (speedMult d0) 1).






End RollingRuns.

Section RollingTheorems.

Import Num Dynamic.






End RollingTheorems.

(* ===================================================================== *)
(** ** [MultiDynamic]: the calls that go over every axis *)
(* ===================================================================== *)

Section EveryAxis.

Import Num MultiDynamic.

(** A loop of [each] over two objects, one after the other. *)
Lemma each_app {A S : Type} (o1 o2 : list (string * A))
    (f : A -> string -> S -> S * completion unit) (s : S) :
  each (o1 ++ o2) f s =
  match each o1 f s with
  | (s', Return _) => each o2 f s'
  | (s', Throw err) => (s', Throw err)
  end.
Proof.
  revert s. induction o1 as [|[k v] o1 IH]; intros s; simpl; [reflexivity|].
  destruct (f v k s) as [s' [[]|err]]; [apply IH|reflexivity].
Qed.

Variable m : Dynamic.t -> Dynamic.t.

(** The method [m] called on the value of every property: a [Dynamic]
    that [n] names denote has it applied [n] times. *)
Lemma each_invoke (l : list (string * nat)) (h : heap) :
  (forall r, r ∈ Multi.refs l -> is_Some (h !! r)) ->
  (each l (fun d _ => invoke m d) h).2 = Return tt /\
  forall r,
    (each l (fun d _ => invoke m d) h).1 !! r
    = Nat.iter (Multi.names_of r l) m <$> h !! r.
Proof.
  revert h. induction l as [|[k r0] l IH]; intros h Hh; simpl.
  - split; [reflexivity|]. intros r. now destruct (h !! r).
  - destruct (Hh r0) as [d0 Ed]; [apply list_elem_of_here|].
    unfold invoke at 1 3. rewrite Ed.
    destruct (IH (<[r0 := m d0]> h)) as [Hret Hst].
    { intros r Hr. apply lookup_insert_is_Some'. right.
      apply Hh, list_elem_of_further, Hr. }
    split; [exact Hret|].
    intros r. rewrite Hst. unfold Multi.names_of. simpl.
    destruct (Nat.eqb_spec r0 r) as [->|Hne].
    + rewrite lookup_insert_eq, Ed. cbn -[Nat.iter]. now rewrite Nat.iter_succ_r.
    + now rewrite lookup_insert_ne.
Qed.

Lemma names_of_0 (r : nat) (l : list (string * nat)) :
  r ∉ Multi.refs l -> Multi.names_of r l = 0%nat.
Proof.
  induction l as [|[k r0] l IH]; [reflexivity|].
  intros [Hr Hl]%not_elem_of_cons. unfold Multi.names_of in *. simpl in *.
  destruct (Nat.eqb_spec r0 r); [congruence|auto].
Qed.

Lemma names_of_pos (r : nat) (l : list (string * nat)) :
  r ∈ Multi.refs l -> exists n, Multi.names_of r l = S n.
Proof.
  induction l as [|[k r0] l IH]; [intros H; inversion H|].
  intros Hr. unfold Multi.names_of in *. simpl in *.
  destruct (Nat.eqb_spec r0 r) as [->|Hne]; [simpl; eauto|].
  apply elem_of_cons in Hr as [Hr|Hr]; [congruence|auto].
Qed.

(** When calling [m] twice is calling it once, every [Dynamic] of the
    object has had [m] applied, however many names denote it; the other
    entries of the store are as they were. *)
Lemma each_invoke_idem (l : list (string * nat)) (h : heap) :
  (forall d, m (m d) = m d) ->
  (forall r, r ∈ Multi.refs l -> is_Some (h !! r)) ->
  (each l (fun d _ => invoke m d) h).2 = Return tt /\
  (forall r, r ∈ Multi.refs l ->
     (each l (fun d _ => invoke m d) h).1 !! r = m <$> h !! r) /\
  (forall r, r ∉ Multi.refs l ->
     (each l (fun d _ => invoke m d) h).1 !! r = h !! r).
Proof.
  intros Hidem Hh. destruct (each_invoke l h Hh) as [Hret Hst].
  assert (Hit : forall n d, Nat.iter (S n) m d = m d).
  { intros n d. induction n as [|n IHn]; [reflexivity|].
    change (Nat.iter (S (S n)) m d) with (m (Nat.iter (S n) m d)).
    rewrite IHn. apply Hidem. }
  split; [exact Hret|]. split; intros r Hr; rewrite Hst.
  - destruct (names_of_pos r l Hr) as [n ->].
    destruct (h !! r) as [d|]; [|reflexivity].
    cbn -[Nat.iter]. now rewrite Hit.
  - rewrite (names_of_0 r l Hr). now destruct (h !! r).
Qed.

End EveryAxis.

Section EveryAxisTheorems.

Import Num MultiDynamic.

(** X11: [stop()] of a [MultiDynamic] whose properties all hold a
    [Dynamic] returns normally and leaves every one of them with what
    [Dynamic.stop] makes of it, also when several names denote the same
    [Dynamic]; the rest of the store is not touched. *)
Theorem multi_stop_all (md : t) (h : heap) :
  (forall r, r ∈ Multi.refs (dynamics md) -> is_Some (h !! r)) ->
  (stop md h).2 = Return tt /\
  (forall r, r ∈ Multi.refs (dynamics md) ->
     (stop md h).1 !! r = Dynamic.stop <$> h !! r) /\
  (forall r, r ∉ Multi.refs (dynamics md) -> (stop md h).1 !! r = h !! r).
Proof.
  intros Hh. apply (each_invoke_idem Dynamic.stop (dynamics md) h); [|exact Hh].
  intros d. reflexivity.
Qed.

Lemma two_axes_hold (r : nat) :
  r ∈ Multi.refs (dynamics Multi.two_axes) -> is_Some (Multi.two_axes_store !! r).
Proof.
  intros Hr. simpl in Hr.
  apply elem_of_cons in Hr as [->|Hr]; [now eexists|].
  apply elem_of_cons in Hr as [->|Hr]; [now eexists|].
  inversion Hr.
Qed.

Lemma multi_stop_all_witness :
  (stop Multi.two_axes Multi.two_axes_store).2 = Return tt /\
  (stop Multi.two_axes Multi.two_axes_store).1 !! 0%nat
  = Some (Dynamic.stop Multi.axis_x).
Proof.
  destruct (multi_stop_all Multi.two_axes Multi.two_axes_store two_axes_hold)
    as (Hret & Hst & _).
  split; [exact Hret|].
  apply (Hst 0%nat). apply list_elem_of_here.
Defined.

(** X12: the assignment to [speed] of a [MultiDynamic] whose properties
    all hold a [Dynamic] sets the [speed] of every one of them, nothing
    else of them, and nothing else of the store. *)
Theorem multi_speed_all (v : num) (md : t) (h : heap) :
  (forall r, r ∈ Multi.refs (dynamics md) -> is_Some (h !! r)) ->
  (set_speed v md h).2 = Return tt /\
  (forall r, r ∈ Multi.refs (dynamics md) ->
     (set_speed v md h).1 !! r = Dynamic.set_speed v <$> h !! r) /\
  (forall r, r ∉ Multi.refs (dynamics md) -> (set_speed v md h).1 !! r = h !! r).
Proof.
  intros Hh.
  apply (each_invoke_idem (Dynamic.set_speed v) (dynamics md) h); [|exact Hh].
  intros d. reflexivity.
Qed.

Lemma multi_speed_all_witness :
  (set_speed (lit 3) Multi.two_axes Multi.two_axes_store).2 = Return tt /\
  (set_speed (lit 3) Multi.two_axes Multi.two_axes_store).1 !! 1%nat
  = Some (Dynamic.set_speed (lit 3) Multi.axis_y).
Proof.
  destruct (multi_speed_all (lit 3) Multi.two_axes Multi.two_axes_store two_axes_hold)
    as (Hret & Hst & _).
  split; [exact Hret|].
  apply (Hst 1%nat). apply list_elem_of_further, list_elem_of_here.
Defined.

End EveryAxisTheorems.

Section SharedAxes.

Import Num MultiDynamic.

(** The loop of [update] when names may denote the same [Dynamic]. *)
Lemma update_loop_shared (e : num) (l : list (string * nat)) (s0 : loop_state) :
  (forall r, r ∈ Multi.refs l -> is_Some (store s0 !! r)) ->
  exists s,
    each l (update_body e) s0 = (s, Return tt) /\
    forall r,
      store s !! r = Dynamic.run (Multi.names_of r l) e <$> store s0 !! r.
Proof.
  revert s0. induction l as [|[k r0] l IH]; intros s0 Hs.
  - exists s0. split; [reflexivity|]. intros r. simpl.
    now destruct (store s0 !! r).
  - destruct (Hs r0) as [d0 Ed]; [apply list_elem_of_here|].
    simpl. unfold update_body at 1. rewrite Ed.
    destruct (Dynamic.update e d0) as [[d0' calls0] ch0] eqn:Eu.
    assert (Ed' : d0' = Dynamic.update_state e d0)
      by (unfold Dynamic.update_state; now rewrite Eu).
    set (s1 := mk_loop _ _ _ _).
    destruct (IH s1) as (s & Hrun & Hst).
    { intros r Hin. apply lookup_insert_is_Some'. right.
      apply Hs, list_elem_of_further, Hin. }
    exists s. split; [exact Hrun|].
    intros r. rewrite Hst. unfold Multi.names_of. simpl.
    destruct (Nat.eqb_spec r0 r) as [->|Hne].
    + rewrite lookup_insert_eq, Ed, Ed'. reflexivity.
    + now rewrite lookup_insert_ne.
Qed.

(** X13: [update(elapsed)] of a [MultiDynamic] whose properties all hold
    a [Dynamic] returns normally, and it updates a [Dynamic] once for each
    name that denotes it: one that [n] names share is left as [n] calls of
    its own [update(elapsed)] leave it, and one that no name denotes is
    not touched. *)
Theorem multi_update_shared (e : num) (md : t) (h : heap) :
  (forall r, r ∈ Multi.refs (dynamics md) -> is_Some (h !! r)) ->
  (exists v, (update e md h).2 = Return v) /\
  forall r,
    (update e md h).1.1 !! r
    = Dynamic.run (Multi.names_of r (dynamics md)) e <$> h !! r.
Proof.
  intros Hh.
  destruct (update_loop_shared e (dynamics md) (mk_loop h [] (JBool false) ∅) Hh)
    as (s & Hrun & Hst).
  unfold update, update_loop. rewrite Hrun.
  destruct (fn md), (to_boolean (hasUpdates s)); simpl; eauto.
Qed.

Lemma multi_update_shared_witness :
  (update (lit 250) Multi.shared_axis (<[0%nat := Multi.axis_x]> ∅)).1.1 !! 0%nat
  = Some (Dynamic.run 2 (lit 250) Multi.axis_x).
Proof.
  refine (proj2 (multi_update_shared (lit 250) Multi.shared_axis
                   (<[0%nat := Multi.axis_x]> ∅) _) 0%nat).
  intros r Hr. simpl in Hr.
  apply elem_of_cons in Hr as [->|Hr]; [now eexists|].
  apply elem_of_cons in Hr as [->|Hr]; [now eexists|].
  inversion Hr.
Defined.

(** The shared [Dynamic] of the example has moved twice as far as its own
    [update] moves it. *)
Example shared_axis_moves_twice :
  strict_eq (Dynamic.current (Dynamic.update_state (lit 250) Multi.axis_x))
            (Fin (1 # 8)) = true /\
  strict_eq (Dynamic.current (Dynamic.run 2 (lit 250) Multi.axis_x))
            (Fin (3 # 8)) = true.
Proof. split; vm_compute; reflexivity. Qed.

End SharedAxes.

Section PartialFanOut.

Import Num MultiDynamic.

Lemma each_named_partial {A : Type} (md : t) (m : A -> Dynamic.t -> Dynamic.t)
    (o1 o2 : list (string * A)) (bad : string) (v : A) (h : heap) :
  get bad (dynamics md) = None ->
  (each o1 (fun v name => invoke_named md name (m v)) h).2 = Return tt ->
  each (o1 ++ (bad, v) :: o2) (fun v name => invoke_named md name (m v)) h
  = ((each o1 (fun v name => invoke_named md name (m v)) h).1, Throw TypeError).
Proof.
  intros Hbad Hret. rewrite each_app.
  destruct (each o1 _ h) as [h1 [[]|err]]; [|discriminate].
  simpl. unfold invoke_named at 1. now rewrite Hbad.
Qed.

(** X14: [goto], [step], [roll] and [setCurrent] of a [MultiDynamic] are
    not all-or-nothing.  When the mapping has a name that is not a
    property of [dynamics], the call throws a [TypeError] at that name:
    the axes named before it have had the operation applied, as by the
    call with those names only, and the ones named after it are
    skipped. *)
Theorem fanout_partial (md : t) (h : heap) (bad : string) :
  get bad (dynamics md) = None ->
  (forall o1 v o2 sm,
      (goto o1 sm md h).2 = Return tt ->
      goto (o1 ++ (bad, v) :: o2) sm md h = ((goto o1 sm md h).1, Throw TypeError)) /\
  (forall o1 v o2 sm,
      (step o1 sm md h).2 = Return tt ->
      step (o1 ++ (bad, v) :: o2) sm md h = ((step o1 sm md h).1, Throw TypeError)) /\
  (forall o1 v o2 sm,
      (roll o1 sm md h).2 = Return tt ->
      roll (o1 ++ (bad, v) :: o2) sm md h = ((roll o1 sm md h).1, Throw TypeError)) /\
  (forall o1 v o2,
      (setCurrent o1 md h).2 = Return tt ->
      setCurrent (o1 ++ (bad, v) :: o2) md h
      = ((setCurrent o1 md h).1, Throw TypeError)).
Proof.
  intros Hbad. repeat split; intros.
  - now apply (each_named_partial md (fun v => Dynamic.goto v sm)).
  - now apply (each_named_partial md (fun v => Dynamic.step v sm)).
  - now apply (each_named_partial md (fun v => Dynamic.roll v sm)).
  - now apply (each_named_partial md (fun v => Dynamic.setCurrent v)).
Qed.

Lemma fanout_partial_witness :
  goto ([("x"%string, lit 3)] ++ ("z"%string, lit 1) :: [("y"%string, lit 2)])
       (lit 1) Multi.two_axes Multi.two_axes_store
  = ((goto [("x"%string, lit 3)] (lit 1) Multi.two_axes Multi.two_axes_store).1,
     Throw TypeError).
Proof.
  apply (proj1 (fanout_partial Multi.two_axes Multi.two_axes_store "z"%string
                  eq_refl)).
  reflexivity.
Defined.

End PartialFanOut.
